(** * AuxMLMModel (robustqa/model.py): span masking, token masking,
      the gamma schedule and the loss combination of the forward pass.

    The development is a shallow embedding of [src/robustqa/model.py].

    - Token ids and labels are 64-bit integers that never overflow here;
      they are embedded as [Z].
    - A tensor of shape (batch, sent_len) is a list of rows.  All tensor
      operations of [span_mask] and [mlm_mask] act row by row or cell by
      cell; the only quantity shared by the rows is [torch.max(nspans)].
    - The float tensors of [span_mask] ([ldist], [lengths], [start_idxs],
      [end_idxs]) hold integers only, which floats of this size represent
      exactly; they are embedded as [Z].
    - The fractional quantities are rationals: the hyper-parameters 0.15
      and 0.2, the uniform variates, the schedule coefficients and the
      losses.  For the two hyper-parameters this agrees with the floating
      point evaluation: [1 / 0.2] rounds to 5.0, and [sent_len * 0.15] is
      either within rounding of an integer that is its exact value, or at
      least 0.05 away from every integer, so [math.ceil] returns the
      ceiling of the exact product.  For a start index, the float value of
      [ceil(u * sent_len)] lies in [0, sent_len] and is therefore the one
      computed here for some rational [u] in the unit interval; statements
      over all draws cover it.
    - Random sampling is an explicit argument: a record of oracles giving
      the value drawn at every coordinate.  A Bernoulli draw with success
      probability [p] is the test [u < p] on a uniform variate [u].
    - Exceptions are values of [error]; a method that can raise returns a
      [result].  [RuntimeError] stands for the errors raised by torch
      itself (an index outside a tensor, the maximum of an empty tensor,
      an empty range for [randint]). *)

From Stdlib Require Import ZArith QArith Qround String Lia.
From stdpp Require Import base list.

Local Open Scope Z_scope.

(** ** Exceptions *)

Inductive error : Type :=
| AttributeError (msg : string)
| IndexError
| RuntimeError.

Inductive result (A : Type) : Type :=
| Ok (a : A)
| Raise (e : error).
Arguments Ok {A} a.
Arguments Raise {A} e.

Global Instance result_ret : MRet result := fun A a => Ok a.
Global Instance result_bind : MBind result := fun A B k r =>
  match r with
  | Ok a => k a
  | Raise e => Raise e
  end.

(** ** Module constants (model.py, lines 14-18) *)

Definition MASK_TOKEN : Z := -100.
Definition PAD_TOKEN : Z := 0.
Definition CLS_TOKEN : Z := 101.
Definition SEP_TOKEN : Z := 102.
Definition GAMMAS_INIT : list Q := [0 # 1]%Q.

(** The label value that [CrossEntropyLoss] skips. *)
Definition IGNORE : Z := -100.

(** ** Hyper-parameters fixed by [__init__] (lines 42-44) *)

Definition mlm_probability : Q := 15 # 100.
Definition len_probability : Q := 2 # 10.
Definition max_spanlen : Z := 2.

(** ** The mutable attributes of the model object (lines 48-51) *)

Record model : Type := Model {
  vocab_size : option Z;
  mask_token : Z;
  gamma_idx : nat;
  gammas : list Q
}.

Definition init : model :=
  {| vocab_size := None;
     mask_token := MASK_TOKEN;
     gamma_idx := 0%nat;
     gammas := GAMMAS_INIT |}.

Definition set_mask_token (self : model) (tok : Z) : model :=
  {| vocab_size := vocab_size self;
     mask_token := tok;
     gamma_idx := gamma_idx self;
     gammas := gammas self |}.

Definition set_gammas (self : model) (gs : list Q) : model :=
  {| vocab_size := vocab_size self;
     mask_token := mask_token self;
     gamma_idx := 0%nat;
     gammas := gs |}.

Definition add_vocab_size (self : model) (n : Z) : model :=
  {| vocab_size := Some n;
     mask_token := mask_token self;
     gamma_idx := gamma_idx self;
     gammas := gammas self |}.

(** [self.gammas[self.gamma_idx]]: indexing a Python list past its end
    raises [IndexError].  The cursor starts at 0 and is only ever
    incremented, so no negative index occurs. *)
Definition py_index {A} (l : list A) (i : nat) : result A :=
  match l !! i with
  | Some x => Ok x
  | None => Raise IndexError
  end.

Definition get_gamma (self : model) : result Q :=
  py_index (gammas self) (gamma_idx self).

(** Lines 261-264 of [forward]: the guarded read of the schedule.
    [self.gammas[-1]] on an empty list raises [IndexError]. *)
Definition gamma_current (self : model) : result Q :=
  if (Z.of_nat (length (gammas self)) - 1 <? Z.of_nat (gamma_idx self))
  then match last (gammas self) with
       | Some g => Ok g
       | None => Raise IndexError
       end
  else py_index (gammas self) (gamma_idx self).

(** Lines 266-267 of [forward]: [self.gamma_idx += 1]. *)
Definition advance (self : model) : model :=
  {| vocab_size := vocab_size self;
     mask_token := mask_token self;
     gamma_idx := S (gamma_idx self);
     gammas := gammas self |}.

Fixpoint advances (k : nat) (self : model) : model :=
  match k with
  | O => self
  | S k' => advances k' (advance self)
  end.

(** ** Tensors as lists of rows *)

(** [g[b][j]] *)
Definition cell {A} (g : list (list A)) (b j : nat) : option A :=
  match g !! b with
  | Some row => row !! j
  | None => None
  end.

(** [g.shape[1]] *)
Definition shape1 {A} (g : list (list A)) : nat :=
  match g with
  | [] => 0%nat
  | row :: _ => length row
  end.

(** Every row has [g.shape[1]] cells: [g] is a tensor. *)
Definition rectangular {A} (g : list (list A)) : Prop :=
  Forall (fun row => length row = shape1 g) g.

(** A boolean index tensor read at a coordinate. *)
Definition selected (mask : list (list bool)) (b j : nat) : bool :=
  match cell mask b j with
  | Some true => true
  | _ => false
  end.

(** An elementwise rewrite that sees the coordinate of each cell. *)
Definition imap2 {A B} (f : nat -> nat -> A -> B) (g : list (list A))
  : list (list B) :=
  imap (fun b row => imap (fun j x => f b j x) row) g.

(** Rows are handled one after the other; the first exception wins. *)
Fixpoint for_rows {A B} (f : nat -> A -> result B) (b : nat)
  (rows : list A) : result (list B) :=
  match rows with
  | [] => Ok []
  | row :: rest =>
      y ← f b row;
      ys ← for_rows f (S b) rest;
      Ok (y :: ys)
  end.

(** [torch.clamp(x, min=lo, max=hi)] *)
Definition clamp (lo hi x : Z) : Z := Z.min (Z.max x lo) hi.

Definition Qltb (x y : Q) : bool := negb (Qle_bool y x).

(** A Bernoulli draw of success probability [p] from the uniform
    variate [u]. *)
Definition bernoulli (p u : Q) : bool := Qltb u p.

(** The support of [torch.rand]. *)
Definition unit_interval (u : Q) : Prop := (0 <= u)%Q /\ (u < 1)%Q.

(** Lines 87-90 and 155-158: [CLS], [SEP] and [PAD] are protected. *)
Definition special_token (tok : Z) : bool :=
  (tok =? CLS_TOKEN) || (tok =? SEP_TOKEN) || (tok =? PAD_TOKEN).

Definition vocab_msg : string :=
  "AuxMLMModel must have vocabulary size added via add_vocab_size() before training occurs".

(** [self.scatter_(1, index, src)] on one row: cell [index[c]] of [self]
    receives [src[c]], for every column [c] of [index].  An index outside
    the row is a runtime error. *)
Fixpoint scatter_ (self : list Z) (index src : list Z) : result (list Z) :=
  match index, src with
  | i :: index', v :: src' =>
      if (0 <=? i) && (i <? Z.of_nat (length self))
      then scatter_ (<[Z.to_nat i := v]> self) index' src'
      else Raise RuntimeError
  | _, _ => Ok self
  end.

(** ** [span_mask] (lines 78-138) *)

(** The values drawn by one call, by coordinate. *)
Record span_draws : Type := SpanDraws {
  geometric : nat -> nat -> Z;    (* line 94, support 0, 1, 2, ... *)
  rand : nat -> nat -> Q;         (* line 106, [torch.rand_like] *)
  bern_masked : nat -> nat -> Q;  (* line 111, variate of bernoulli(0.8) *)
  bern_random : nat -> nat -> Q;  (* line 112, variate of bernoulli(0.5) *)
  randint : nat -> nat -> Z       (* line 134 *)
}.

Definition rand_in_unit (d : span_draws) : Prop :=
  forall b c, unit_interval (rand d b c).

(** Line 95: one cell of [ldist_trunc]. *)
Definition ldist_trunc_cell (x : Z) : Z := clamp 0 max_spanlen x + 1.

Definition ldist_trunc (d : span_draws) (b n : nat) : list Z :=
  (fun j => ldist_trunc_cell (geometric d b j)) <$> seq 0 n.

(** Line 98 *)
Definition nmask (n : nat) : Z :=
  Qceiling (inject_Z (Z.of_nat n) * mlm_probability).

(** Line 99: running sum along the row. *)
Fixpoint cumsum_from (acc : Z) (l : list Z) : list Z :=
  match l with
  | [] => []
  | x :: l' => (acc + x) :: cumsum_from (acc + x) l'
  end.

Definition cumsum (l : list Z) : list Z := cumsum_from 0 l.

(** Line 100: the threshold [nmask + 1 / self.len_probability]. *)
Definition budget (n : nat) : Q :=
  (inject_Z (nmask n) + 1 / len_probability)%Q.

(** Line 100: row [b] of [lengths] before the column truncation. *)
Definition budget_lengths (d : span_draws) (b n : nat) : list Z :=
  let lt := ldist_trunc d b n in
  zip_with (fun c l => if Qltb (inject_Z c) (budget n) then l else 0)
           (cumsum lt) lt.

Fixpoint count_nonzero (l : list Z) : nat :=
  match l with
  | [] => 0%nat
  | x :: l' => if x =? 0 then count_nonzero l' else S (count_nonzero l')
  end.

(** Lines 101-102: [torch.max(nspans)]; the maximum of an empty tensor
    is a runtime error. *)
Definition max_nspans (d : span_draws) (inputs : list (list Z))
  : result nat :=
  match inputs with
  | [] => Raise RuntimeError
  | _ => Ok (max_list (imap (fun b _ =>
                count_nonzero (budget_lengths d b (shape1 inputs))) inputs))
  end.

(** Line 102: row [b] of [lengths]. *)
Definition lengths (d : span_draws) (b n k : nat) : list Z :=
  take k (budget_lengths d b n).

(** Lines 106-107 *)
Definition start_idx (n : nat) (len : Z) (u : Q) : Z :=
  if 0 <? len then Qceiling (u * inject_Z (Z.of_nat n)) else 0.

Definition start_idxs (d : span_draws) (b n k : nat) : list Z :=
  imap (fun c len => start_idx n len (rand d b c)) (lengths d b n k).

(** Lines 108-109 *)
Definition end_idxs (d : span_draws) (b n k : nat) : list Z :=
  zip_with (fun s len => clamp 0 (Z.of_nat n) (s + len))
           (start_idxs d b n k) (lengths d b n k).

(** Lines 111-113 *)
Definition masked_span (d : span_draws) (b c : nat) : bool :=
  bernoulli (8 # 10) (bern_masked d b c).

Definition random_span (d : span_draws) (b c : nat) : bool :=
  bernoulli (5 # 10) (bern_random d b c) && negb (masked_span d b c).

Definition masked_spans (d : span_draws) (b n k : nat) : list Z :=
  imap (fun c _ => Z.b2z (masked_span d b c)) (lengths d b n k).

Definition random_spans (d : span_draws) (b n k : nat) : list Z :=
  imap (fun c _ => Z.b2z (random_span d b c)) (lengths d b n k).

(** Line 116 *)
Definition increment (d : span_draws) (b n k : nat) : list Z :=
  (fun _ => 1) <$> start_idxs d b n k.

(** Line 121 *)
Definition token_indices (current ends : list Z) : list Z :=
  zip_with (fun c e => if c <? e then c else 0) current ends.

(** Lines 120-124: the state of the loop is the two index rows and
    [current_idxs]. *)
Fixpoint fill_spans (iters : nat) (ends mspans rspans incr : list Z)
  (masked random current : list Z) : result (list Z * list Z) :=
  match iters with
  | O => Ok (masked, random)
  | S iters' =>
      let tok := token_indices current ends in
      masked' ← scatter_ masked (zip_with Z.mul tok mspans) incr;
      random' ← scatter_ random (zip_with Z.mul tok rspans) incr;
      fill_spans iters' ends mspans rspans incr masked' random'
                 (zip_with Z.add current incr)
  end.

(** Lines 127-130 on one row: clear the protected cells, then [.bool()]. *)
Definition protect (special : list bool) (indices : list Z) : list bool :=
  zip_with (fun sp x => negb ((if sp : bool then 0 else x) =? 0))
           special indices.

(** Lines 86-130 for row [b]: the final [masked_indices] and
    [random_indices]. *)
Definition span_row (d : span_draws) (n k b : nat) (row : list Z)
  : result (list bool * list bool) :=
  let special := special_token <$> row in
  let zeros := (fun _ => 0) <$> row in
  '(masked, random) ← fill_spans (Z.to_nat max_spanlen)
       (end_idxs d b n k) (masked_spans d b n k) (random_spans d b n k)
       (increment d b n k) zeros zeros (start_idxs d b n k);
  Ok (protect special masked, protect special random).

Definition span_indices (d : span_draws) (inputs : list (list Z))
  : result (list (list bool) * list (list bool)) :=
  k ← max_nspans d inputs;
  rows ← for_rows (span_row d (shape1 inputs) k) 0%nat inputs;
  Ok (rows.*1, rows.*2).

(** Lines 78-138.  The result is the pair (inputs, labels); [inputs] is
    the argument tensor after its in-place rewrite. *)
Definition span_mask (self : model) (d : span_draws)
  (inputs : list (list Z)) : result (list (list Z) * list (list Z)) :=
  match vocab_size self with
  | None => Raise (AttributeError vocab_msg)
  | Some v =>
      '(masked_indices, random_indices) ← span_indices d inputs;
      let labels :=
        imap2 (fun b j x =>
                 if selected masked_indices b j || selected random_indices b j
                 then x else IGNORE) inputs in
      (* torch.randint(high, ...) rejects an empty range *)
      if v <=? 0 then Raise RuntimeError else
      let inputs1 :=
        imap2 (fun b j x =>
                 if selected masked_indices b j then mask_token self else x)
              inputs in
      let inputs2 :=
        imap2 (fun b j x =>
                 if selected random_indices b j then randint d b j else x)
              inputs1 in
      Ok (inputs2, labels)
  end.

(** A 0/1 policy flag, as [masked_spans.int()] holds them. *)
Definition is_bit (s : Z) : Prop := s = 0 \/ s = 1.

(** Position [j] of row [b] lies inside a selected span: a slot of
    non-zero length whose range [start, end) contains [j]. *)
Definition covered (d : span_draws) (b n k j : nat) : Prop :=
  exists c len s e,
    lengths d b n k !! c = Some len /\ 0 < len /\
    start_idxs d b n k !! c = Some s /\
    end_idxs d b n k !! c = Some e /\
    s <= Z.of_nat j < e.

(** The sum of one row of a length tensor. *)
Fixpoint sum_Z (l : list Z) : Z :=
  match l with
  | [] => 0
  | x :: l' => x + sum_Z l'
  end.

(** ** [mlm_mask] (lines 142-174) *)

Record mlm_draws : Type := MlmDraws {
  bern_select : nat -> nat -> Q;     (* line 161, variate of bernoulli(probability_matrix) *)
  bern_replace : nat -> nat -> Q;    (* line 165, variate of bernoulli(0.8) *)
  bern_randomize : nat -> nat -> Q;  (* line 169, variate of bernoulli(0.5) *)
  mlm_randint : nat -> nat -> Z      (* line 170 *)
}.

Definition select_in_unit (d : mlm_draws) : Prop :=
  forall b j, unit_interval (bern_select d b j).

(** Lines 152-160: the selection probability of every cell. *)
Definition probability_matrix (inputs : list (list Z)) : list (list Q) :=
  imap2 (fun _ _ tok => if special_token tok then 0%Q else mlm_probability)
        inputs.

(** Line 161 *)
Definition mlm_masked_indices (d : mlm_draws) (inputs : list (list Z))
  : list (list bool) :=
  imap2 (fun b j p => bernoulli p (bern_select d b j))
        (probability_matrix inputs).

(** Line 165 *)
Definition indices_replaced (d : mlm_draws) (inputs : list (list Z))
  : list (list bool) :=
  imap2 (fun b j m => bernoulli (8 # 10) (bern_replace d b j) && m)
        (mlm_masked_indices d inputs).

(** Line 169 *)
Definition indices_random (d : mlm_draws) (inputs : list (list Z))
  : list (list bool) :=
  imap2 (fun b j m => bernoulli (5 # 10) (bern_randomize d b j) && m
                      && negb (selected (indices_replaced d inputs) b j))
        (mlm_masked_indices d inputs).

Definition mlm_mask (self : model) (d : mlm_draws)
  (inputs : list (list Z)) : result (list (list Z) * list (list Z)) :=
  match vocab_size self with
  | None => Raise (AttributeError vocab_msg)
  | Some v =>
      let masked_indices := mlm_masked_indices d inputs in
      let labels :=
        imap2 (fun b j x => if selected masked_indices b j then x else IGNORE)
              inputs in
      let inputs1 :=
        imap2 (fun b j x =>
                 if selected (indices_replaced d inputs) b j
                 then mask_token self else x) inputs in
      if v <=? 0 then Raise RuntimeError else
      let inputs2 :=
        imap2 (fun b j x =>
                 if selected (indices_random d inputs) b j
                 then mlm_randint d b j else x) inputs1 in
      Ok (inputs2, labels)
  end.

(** ** [forward] (lines 176-277) *)

Section Forward.
(** The network itself is out of scope.  [outputs] stands for the tuple
    [(start_logits, end_logits, prediction_logits) + distilbert_output[1:]]
    and [network] for its computation from [input_ids] (the attention
    mask and the output flags are fixed).  The computation is partial:
    the embedding lookup of the encoder raises [IndexError] on an id
    outside its table, and [network] is [None] there.  The two loss
    functions stand for lines 249-252 and line 258. *)
Variable outputs : Type.
Variable network : list (list Z) -> option outputs.
Variable qa_loss_fct : outputs -> list Z -> list Z -> Q.
Variable mlm_loss_fct : outputs -> list (list Z) -> Q.

(** The result is the new state of the model and the returned tuple:
    its loss slot ([Some] when a loss is prepended) and the rest. *)
Definition forward (self : model) (d : span_draws)
  (input_ids : list (list Z))
  (start_positions end_positions : option (list Z))
  (decay_gamma mask_inputs : bool)
  : result (model * (option Q * outputs)) :=
  '(input_ids, mlm_labels) ←
     (if mask_inputs then span_mask self d input_ids
      else Ok (input_ids, input_ids));
  out ← match network input_ids with
        | Some out => Ok out
        | None => Raise IndexError
        end;
  let qa_loss :=
    match start_positions, end_positions with
    | Some sp, Some ep =>
        let ignored_index := Z.of_nat (shape1 input_ids) in
        Some (qa_loss_fct out (clamp 0 ignored_index <$> sp)
                              (clamp 0 ignored_index <$> ep))
    | _, _ => None
    end in
  let mlm_loss := if mask_inputs then mlm_loss_fct out mlm_labels else 0%Q in
  gamma_current ← gamma_current self;
  let self' := if decay_gamma then advance self else self in
  (* the value of an arithmetic expression, never [None] *)
  let total_loss : option Q :=
    Some (match qa_loss with
          | None => gamma_current * mlm_loss
          | Some qa => qa + gamma_current * mlm_loss
          end)%Q in
  Ok (self', match total_loss with
             | Some loss => (Some loss, out)
             | None => (None, out)
             end).
End Forward.
Arguments forward {outputs}.

(** ** Reading an error message *)

Fixpoint starts_with (p s : string) : bool :=
  match p, s with
  | EmptyString, _ => true
  | String a p', String b s' => Ascii.eqb a b && starts_with p' s'
  | String _ _, EmptyString => false
  end.

Fixpoint mentions (s p : string) : bool :=
  starts_with p s ||
  match s with
  | EmptyString => false
  | String _ s' => mentions s' p
  end.

(** ** Sample configurations *)

(** A model whose vocabulary size has been configured. *)
Definition ready_model : model := add_vocab_size init 1000.

(** The schedule of the specification's scenario. *)
Definition sample_gammas : list Q := [1 # 10; 3 # 10; 1 # 2]%Q.

(** Two sequences of eight tokens, the second one padded. *)
Definition sample_inputs : list (list Z) :=
  [[101; 8; 9; 10; 11; 12; 13; 102]; [101; 8; 9; 10; 11; 102; 0; 0]].

(** Every geometric draw is 2, every span starts a quarter into the
    sequence and is masked. *)
Definition sample_draws : span_draws :=
  {| geometric := fun _ _ => 2;
     rand := fun _ _ => (1 # 4)%Q;
     bern_masked := fun _ _ => 0%Q;
     bern_random := fun _ _ => 0%Q;
     randint := fun _ _ => 999 |}.

Definition sample_mlm_draws : mlm_draws :=
  {| bern_select := fun _ _ => 0%Q;
     bern_replace := fun _ _ => 0%Q;
     bern_randomize := fun _ _ => 0%Q;
     mlm_randint := fun _ _ => 999 |}.

(** One sequence that does not begin with [CLS]. *)
Definition bare_inputs : list (list Z) := [[7; 8; 9; 10]].

(** A model that masks with a token of the vocabulary, the id of [MASK]. *)
Definition masking_model : model := set_mask_token ready_model 103.

(** An encoder with an embedding table of 1000 rows: it accepts the ids
    in [0, 1000) and hands them on as its output. *)
Definition sample_network (ids : list (list Z)) : option (list (list Z)) :=
  if forallb (forallb (fun x => (0 <=? x) && (x <? 1000))) ids
  then Some ids else None.

(** What [span_mask] makes of [sample_inputs] under [sample_draws] with
    the mask token 103. *)
Definition sample_rewritten : list (list Z) :=
  [[101; 8; 103; 103; 11; 12; 13; 102]; [101; 8; 103; 103; 11; 102; 0; 0]].

(** A QA loss that shows the positions it is given. *)
Definition sample_qa_loss (_ : list (list Z)) (sp ep : list Z) : Q :=
  inject_Z (sum_Z sp + sum_Z ep).

(** Line 246: where a gold position ends up. *)
Definition into_range (sent_len p : Z) : Z :=
  if p <? 0 then 0 else if sent_len <? p then sent_len else p.

(** ** Vocabulary of the further properties *)

(** Line 101: the number of spans kept for row [b]. *)
Definition nspans (d : span_draws) (b n : nat) : nat :=
  count_nonzero (budget_lengths d b n).

(** Position [j] of row [b] is one of the first [max_spanlen] positions
    of a selected span whose policy flag is set; [policy] is
    [masked_span d b] or [random_span d b]. *)
Definition marked (policy : nat -> bool) (d : span_draws)
  (b n k j : nat) : Prop :=
  exists c len s e,
    lengths d b n k !! c = Some len /\ 0 < len /\
    start_idxs d b n k !! c = Some s /\
    end_idxs d b n k !! c = Some e /\
    policy c = true /\
    s <= Z.of_nat j < e /\ Z.of_nat j < s + max_spanlen.

(** Whether the loop of lines 120-124 names index [j] in one of its
    [iters] scatters into the index row governed by the flags [spans]. *)
Fixpoint written (j : Z) (iters : nat) (ends spans incr current : list Z)
  : bool :=
  match iters with
  | O => false
  | S iters' =>
      bool_decide (j ∈ zip_with Z.mul (token_indices current ends) spans)
      || written j iters' ends spans incr (zip_with Z.add current incr)
  end.

(** The columns of row [b] that are in [masked_indices] or in
    [random_indices]: the cells whose label is not overwritten by -100. *)
Definition supervised (masked random : list (list bool)) (b n : nat)
  : list nat :=
  filter (fun j => selected masked b j || selected random b j = true)
         (seq 0 n).

(** * Properties *)

(** ** The exception monad and the row loop *)

Lemma Qltb_lt (x y : Q) : Qltb x y = true <-> (x < y)%Q.
Proof.
  unfold Qltb. rewrite negb_true_iff.
  split.
  - intros H. apply Qnot_le_lt. intros Hle.
    apply Qle_bool_iff in Hle. congruence.
  - intros H. destruct (Qle_bool y x) eqn:E; [|reflexivity].
    apply Qle_bool_iff in E. exfalso. exact (Qlt_not_le _ _ H E).
Qed.

Lemma bind_Ok {A B} (r : result A) (k : A -> result B) (y : B) :
  r ≫= k = Ok y -> exists x, r = Ok x /\ k x = Ok y.
Proof. destruct r as [x|e]; simpl; [eauto | discriminate]. Qed.

Lemma for_rows_lookup {A B} (f : nat -> A -> result B) rows :
  forall b0 out i row,
    for_rows f b0 rows = Ok out ->
    rows !! i = Some row ->
    exists y, f (b0 + i)%nat row = Ok y /\ out !! i = Some y.
Proof.
  induction rows as [|r rows IH]; intros b0 out i row Hrun Hrow.
  - discriminate.
  - simpl in Hrun.
    apply bind_Ok in Hrun as (y & Hy & Hrun).
    apply bind_Ok in Hrun as (ys & Hys & Hout).
    injection Hout as <-.
    destruct i as [|i]; simpl in *.
    + injection Hrow as ->. exists y. rewrite Nat.add_0_r. auto.
    + destruct (IH _ _ _ _ Hys Hrow) as (y' & Hy' & Hlk).
      exists y'. rewrite Nat.add_succ_r. auto.
Qed.

Lemma for_rows_length {A B} (f : nat -> A -> result B) rows :
  forall b0 out, for_rows f b0 rows = Ok out -> length out = length rows.
Proof.
  induction rows as [|r rows IH]; intros b0 out Hrun; simpl in Hrun.
  - injection Hrun as <-. reflexivity.
  - apply bind_Ok in Hrun as (y & Hy & Hrun).
    apply bind_Ok in Hrun as (ys & Hys & Hout).
    injection Hout as <-. simpl. f_equal. eauto.
Qed.

Lemma for_rows_total {A B} (f : nat -> A -> result B) rows :
  forall b0,
    (forall i row, rows !! i = Some row ->
                   exists y, f (b0 + i)%nat row = Ok y) ->
    exists out, for_rows f b0 rows = Ok out.
Proof.
  induction rows as [|r rows IH]; intros b0 Hall; simpl.
  - eauto.
  - destruct (Hall 0%nat r eq_refl) as (y & Hy).
    rewrite Nat.add_0_r in Hy. rewrite Hy. simpl.
    destruct (IH (S b0)) as (ys & Hys).
    + intros i row Hrow. specialize (Hall (S i) row Hrow).
      rewrite Nat.add_succ_r in Hall. exact Hall.
    + rewrite Hys. simpl. eauto.
Qed.

(** ** [scatter_] *)

Lemma scatter_length index :
  forall self src out,
    scatter_ self index src = Ok out -> length out = length self.
Proof.
  induction index as [|i index IH]; intros self src out H; simpl in H.
  - injection H as <-. reflexivity.
  - destruct src as [|v src].
    + injection H as <-. reflexivity.
    + destruct ((0 <=? i) && (i <? Z.of_nat (length self))); [|discriminate].
      apply IH in H. rewrite H. apply length_insert.
Qed.

(** A cell that no index names keeps its value. *)
Lemma scatter_untouched (j : nat) index :
  forall self src out,
    scatter_ self index src = Ok out ->
    Forall (fun i => i <> Z.of_nat j) index ->
    out !! j = self !! j.
Proof.
  induction index as [|i index IH]; intros self src out H Hne; simpl in H.
  - injection H as <-. reflexivity.
  - destruct src as [|v src].
    + injection H as <-. reflexivity.
    + destruct ((0 <=? i) && (i <? Z.of_nat (length self))) eqn:E;
        [|discriminate].
      apply Forall_cons in Hne as [Hi Hne].
      rewrite (IH _ _ _ H Hne).
      apply list_lookup_insert_ne. lia.
Qed.

Lemma scatter_total index :
  forall self src,
    Forall (fun i => 0 <= i < Z.of_nat (length self)) index ->
    exists out, scatter_ self index src = Ok out.
Proof.
  induction index as [|i index IH]; intros self src Hin; simpl.
  - eauto.
  - destruct src as [|v src]; [eauto|].
    apply Forall_cons in Hin as [Hi Hin].
    replace ((0 <=? i) && (i <? Z.of_nat (length self))) with true
      by (symmetry; apply andb_true_iff; lia).
    apply IH. rewrite length_insert. exact Hin.
Qed.

(** ** The span-filling loop *)

Section FillSpans.
Variables ends mspans rspans incr : list Z.
Hypothesis incr_nonneg : Forall (fun x => 0 <= x) incr.

(** The column of an index tensor built from a 0/1 policy column holds
    either the dump index 0 or the running index of a span that has not
    reached its end. *)
Lemma scatter_index_cases spans current c x :
  Forall is_bit spans ->
  zip_with Z.mul (token_indices current ends) spans !! c = Some x ->
  x = 0 \/
  exists cur e, current !! c = Some cur /\ ends !! c = Some e /\
                cur < e /\ x = cur.
Proof.
  intros Hbits Hx.
  apply lookup_zip_with_Some in Hx as (t & s & -> & Ht & Hs).
  unfold token_indices in Ht.
  apply lookup_zip_with_Some in Ht as (cur & e & -> & Hcur & He).
  rewrite Forall_lookup in Hbits.
  destruct (Hbits _ _ Hs) as [-> | ->]; [left; lia|].
  destruct (Z.ltb_spec cur e); [|left; lia].
  right. exists cur, e. repeat split; auto; lia.
Qed.

Lemma advance_lookup current c cur' :
  zip_with Z.add current incr !! c = Some cur' ->
  exists cur, current !! c = Some cur /\ cur <= cur'.
Proof.
  intros H.
  apply lookup_zip_with_Some in H as (cur & i & -> & Hcur & Hi).
  rewrite Forall_lookup in incr_nonneg.
  specialize (incr_nonneg _ _ Hi). simpl in incr_nonneg.
  exists cur. split; [assumption | lia].
Qed.

Lemma fill_spans_length iters :
  forall masked random current m r,
    fill_spans iters ends mspans rspans incr masked random current
      = Ok (m, r) ->
    length m = length masked /\ length r = length random.
Proof.
  induction iters as [|iters IH]; intros masked random current m r H;
    simpl in H.
  - injection H as <- <-. auto.
  - apply bind_Ok in H as (masked' & Hm & H).
    apply bind_Ok in H as (random' & Hr & H).
    apply IH in H as [-> ->].
    split; eapply scatter_length; eassumption.
Qed.

(** Position [j > 0] keeps its value when, in every column, it lies
    left of the running index or right of the span's end. *)
Lemma fill_spans_untouched (j : nat) iters :
  Forall is_bit mspans -> Forall is_bit rspans ->
  (0 < j)%nat ->
  forall masked random current m r,
    (forall c cur e, current !! c = Some cur -> ends !! c = Some e ->
                     Z.of_nat j < cur \/ e <= Z.of_nat j) ->
    fill_spans iters ends mspans rspans incr masked random current
      = Ok (m, r) ->
    m !! j = masked !! j /\ r !! j = random !! j.
Proof.
  intros Hmb Hrb Hj.
  induction iters as [|iters IH]; intros masked random current m r Hout H;
    simpl in H.
  - injection H as <- <-. auto.
  - apply bind_Ok in H as (masked' & Hm & H).
    apply bind_Ok in H as (random' & Hr & H).
    assert (Hfree : forall spans, Forall is_bit spans ->
              Forall (fun i => i <> Z.of_nat j)
                (zip_with Z.mul (token_indices current ends) spans)).
    { intros spans Hbits. apply Forall_lookup. intros c x Hx.
      destruct (scatter_index_cases _ _ _ _ Hbits Hx)
        as [-> | (cur & e & Hcur & He & Hlt & ->)]; [lia|].
      destruct (Hout _ _ _ Hcur He); lia. }
    apply IH in H as [-> ->].
    + split; eapply scatter_untouched; eauto.
    + intros c cur' e Hcur' He.
      apply advance_lookup in Hcur' as (cur & Hcur & Hle).
      destruct (Hout _ _ _ Hcur He); lia.
Qed.

(** The loop raises nothing when every running index is non-negative
    and every end lies within the row. *)
Lemma fill_spans_total (len : nat) iters :
  Forall is_bit mspans -> Forall is_bit rspans ->
  (ends = [] \/ (0 < len)%nat) ->
  forall masked random current,
    length masked = len -> length random = len ->
    (forall c cur e, current !! c = Some cur -> ends !! c = Some e ->
                     0 <= cur /\ e <= Z.of_nat len) ->
    exists m r,
      fill_spans iters ends mspans rspans incr masked random current
        = Ok (m, r).
Proof.
  intros Hmb Hrb Hlen.
  induction iters as [|iters IH]; intros masked random current Lm Lr Hin;
    simpl.
  - eauto.
  - assert (Hrange : forall spans, Forall is_bit spans ->
              Forall (fun i => 0 <= i < Z.of_nat len)
                (zip_with Z.mul (token_indices current ends) spans)).
    { intros spans Hbits. apply Forall_lookup. intros c x Hx.
      destruct (scatter_index_cases _ _ _ _ Hbits Hx)
        as [-> | (cur & e & Hcur & He & Hlt & ->)].
      - destruct Hlen as [-> | Hpos]; [|lia].
        apply lookup_zip_with_Some in Hx as (t & s & _ & Ht & _).
        unfold token_indices in Ht.
        apply lookup_zip_with_Some in Ht as (? & ? & _ & _ & He).
        discriminate.
      - destruct (Hin _ _ _ Hcur He). lia. }
    destruct (scatter_total (zip_with Z.mul (token_indices current ends)
                               mspans) masked incr) as (masked' & Hm).
    { rewrite Lm. auto. }
    destruct (scatter_total (zip_with Z.mul (token_indices current ends)
                               rspans) random incr) as (random' & Hr).
    { rewrite Lr. auto. }
    rewrite Hm, Hr. simpl.
    apply IH.
    + rewrite (scatter_length _ _ _ _ Hm). exact Lm.
    + rewrite (scatter_length _ _ _ _ Hr). exact Lr.
    + intros c cur' e Hcur' He.
      apply advance_lookup in Hcur' as (cur & Hcur & Hle).
      destruct (Hin _ _ _ Hcur He). lia.
Qed.
End FillSpans.

(** ** The span columns of one row *)

Lemma clamp_bounds lo hi x : lo <= hi -> lo <= clamp lo hi x <= hi.
Proof. unfold clamp. lia. Qed.

Lemma clamp_upper lo hi x : clamp lo hi x <= hi.
Proof. unfold clamp. lia. Qed.

Lemma ldist_trunc_cell_range x :
  1 <= ldist_trunc_cell x <= max_spanlen + 1.
Proof.
  unfold ldist_trunc_cell.
  pose proof (clamp_bounds 0 max_spanlen x). unfold max_spanlen in *. lia.
Qed.

Lemma length_ldist_trunc d b n : length (ldist_trunc d b n) = n.
Proof. unfold ldist_trunc. rewrite length_fmap. apply length_seq. Qed.

Lemma length_cumsum_from l : forall acc, length (cumsum_from acc l) = length l.
Proof. induction l; intros; simpl; auto. Qed.

Lemma length_budget_lengths d b n : length (budget_lengths d b n) = n.
Proof.
  unfold budget_lengths, cumsum.
  rewrite length_zip_with, length_cumsum_from, length_ldist_trunc. lia.
Qed.

Lemma length_lengths d b n k : (length (lengths d b n k) <= n)%nat.
Proof.
  unfold lengths. rewrite length_take, length_budget_lengths. lia.
Qed.

Lemma start_idxs_lookup d b n k c s :
  start_idxs d b n k !! c = Some s ->
  exists len, lengths d b n k !! c = Some len /\
              s = start_idx n len (rand d b c).
Proof.
  unfold start_idxs. rewrite list_lookup_imap.
  destruct (lengths d b n k !! c) as [len|]; simpl; [|discriminate].
  intros [= <-]. eauto.
Qed.

Lemma end_idxs_lookup d b n k c e :
  end_idxs d b n k !! c = Some e ->
  exists s len, start_idxs d b n k !! c = Some s /\
                lengths d b n k !! c = Some len /\
                e = clamp 0 (Z.of_nat n) (s + len).
Proof.
  unfold end_idxs. intros H.
  apply lookup_zip_with_Some in H as (s & len & -> & Hs & Hlen). eauto.
Qed.

Lemma start_idx_nonneg n len u : (0 <= u)%Q -> 0 <= start_idx n len u.
Proof.
  intros Hu. unfold start_idx. destruct (0 <? len); [|lia].
  assert (H : (0 <= u * inject_Z (Z.of_nat n))%Q).
  { apply Qmult_le_0_compat; [assumption|].
    change 0%Q with (inject_Z 0). rewrite <- Zle_Qle. lia. }
  apply Qceiling_resp_le in H. exact H.
Qed.

Lemma masked_spans_bits d b n k : Forall is_bit (masked_spans d b n k).
Proof.
  apply Forall_lookup. intros c x. unfold masked_spans.
  rewrite list_lookup_imap.
  destruct (lengths d b n k !! c); simpl; [|discriminate].
  intros [= <-]. unfold is_bit. destruct (masked_span d b c); auto.
Qed.

Lemma random_spans_bits d b n k : Forall is_bit (random_spans d b n k).
Proof.
  apply Forall_lookup. intros c x. unfold random_spans.
  rewrite list_lookup_imap.
  destruct (lengths d b n k !! c); simpl; [|discriminate].
  intros [= <-]. unfold is_bit. destruct (random_span d b c); auto.
Qed.

Lemma increment_nonneg d b n k : Forall (fun x => 0 <= x) (increment d b n k).
Proof.
  apply Forall_lookup. intros c x. unfold increment.
  rewrite list_lookup_fmap.
  destruct (start_idxs d b n k !! c); simpl; [|discriminate].
  intros [= <-]. lia.
Qed.

Lemma end_idxs_empty d b k : end_idxs d b 0 k = [].
Proof.
  assert (H : lengths d b 0 k = []).
  { apply nil_length_inv. pose proof (length_lengths d b 0 k). lia. }
  unfold end_idxs, start_idxs. rewrite H. reflexivity.
Qed.

Lemma protect_lookup (special : list bool) (indices : list Z) j
  (sp : bool) (x : Z) :
  special !! j = Some sp -> indices !! j = Some x ->
  protect special indices !! j = Some (negb ((if sp then 0 else x) =? 0)).
Proof.
  intros Hs Hx. unfold protect.
  rewrite lookup_zip_with, Hs, Hx. reflexivity.
Qed.

Lemma length_protect (special : list bool) (indices : list Z) :
  length special = length indices ->
  length (protect special indices) = length indices.
Proof. intros H. unfold protect. rewrite length_zip_with. lia. Qed.

(** What [span_row] computes on a row of the tensor's width. *)
Lemma span_row_spec d n k b row :
  length row = n -> rand_in_unit d ->
  exists m r,
    span_row d n k b row = Ok (m, r) /\
    length m = n /\ length r = n /\
    (forall j tok, row !! j = Some tok -> special_token tok = true ->
                   m !! j = Some false /\ r !! j = Some false) /\
    (forall j, (0 < j < n)%nat -> ~ covered d b n k j ->
               m !! j = Some false /\ r !! j = Some false).
Proof.
  intros Hlen Hu. unfold span_row.
  pose proof (masked_spans_bits d b n k) as Hmb.
  pose proof (random_spans_bits d b n k) as Hrb.
  pose proof (increment_nonneg d b n k) as Hinc.
  assert (Hz : length ((fun _ : Z => 0) <$> row) = n)
    by (rewrite length_fmap; exact Hlen).
  destruct (fill_spans_total (end_idxs d b n k) (masked_spans d b n k)
              (random_spans d b n k) (increment d b n k) Hinc n
              (Z.to_nat max_spanlen) Hmb Hrb) with
      (masked := (fun _ : Z => 0) <$> row)
      (random := (fun _ : Z => 0) <$> row)
      (current := start_idxs d b n k) as (m & r & Hfill); auto.
  { destruct n; [left; apply end_idxs_empty | right; lia]. }
  { intros c cur e Hcur He.
    apply start_idxs_lookup in Hcur as (len & _ & ->).
    apply end_idxs_lookup in He as (s & len' & _ & _ & ->).
    split; [apply start_idx_nonneg, Hu | apply clamp_upper]. }
  rewrite Hfill. simpl.
  destruct (fill_spans_length _ _ _ _ _ _ _ _ _ _ Hfill) as [Lm Lr].
  rewrite Hz in Lm, Lr.
  assert (Ls : length (special_token <$> row) = n)
    by (rewrite length_fmap; exact Hlen).
  eexists _, _. split; [reflexivity|].
  split; [rewrite length_protect; congruence|].
  split; [rewrite length_protect; congruence|].
  split.
  - intros j tok Htok Hsp.
    assert (Hj : (j < n)%nat) by (rewrite <- Hlen; eapply lookup_lt_Some; eauto).
    destruct (lookup_lt_is_Some_2 m j) as [x Hx]; [lia|].
    destruct (lookup_lt_is_Some_2 r j) as [y Hy]; [lia|].
    assert (Hs : (special_token <$> row) !! j = Some true)
      by (rewrite list_lookup_fmap, Htok; simpl; congruence).
    rewrite (protect_lookup _ _ _ _ _ Hs Hx), (protect_lookup _ _ _ _ _ Hs Hy).
    auto.
  - intros j [Hj0 Hjn] Hnc.
    destruct (lookup_lt_is_Some_2 row j) as [tok Htok]; [lia|].
    assert (Hs : (special_token <$> row) !! j = Some (special_token tok))
      by (rewrite list_lookup_fmap, Htok; reflexivity).
    assert (Hout : forall c cur e,
               start_idxs d b n k !! c = Some cur ->
               end_idxs d b n k !! c = Some e ->
               Z.of_nat j < cur \/ e <= Z.of_nat j).
    { intros c cur e Hcur He.
      destruct (start_idxs_lookup _ _ _ _ _ _ Hcur) as (len & Hl & Es).
      destruct (end_idxs_lookup _ _ _ _ _ _ He) as (s' & len' & Hs' & Hl' & Ee).
      assert (s' = cur) by congruence. assert (len' = len) by congruence.
      subst s' len'.
      destruct (Z.ltb_spec 0 len) as [Hpos|Hnp].
      - destruct (Z_lt_le_dec (Z.of_nat j) cur); [left; lia|].
        destruct (Z_lt_le_dec (Z.of_nat j) e); [|right; lia].
        exfalso. apply Hnc. exists c, len, cur, e.
        repeat split; auto; lia.
      - right. rewrite Ee, Es. unfold start_idx.
        replace (0 <? len) with false by (symmetry; apply Z.ltb_ge; lia).
        unfold clamp. lia. }
    destruct (fill_spans_untouched _ _ _ _ Hinc j _ Hmb Hrb Hj0
                _ _ _ _ _ Hout Hfill) as [Hm Hr].
    assert (Hzj : ((fun _ : Z => 0) <$> row) !! j = Some 0)
      by (rewrite list_lookup_fmap, Htok; reflexivity).
    rewrite Hzj in Hm, Hr.
    rewrite (protect_lookup _ _ _ _ _ Hs Hm), (protect_lookup _ _ _ _ _ Hs Hr).
    destruct (special_token tok); auto.
Qed.

(** ** The index tensors and the rewrite of inputs and labels *)

Lemma cell_imap2 {A B} (f : nat -> nat -> A -> B) (g : list (list A)) b j :
  cell (imap2 f g) b j = f b j <$> cell g b j.
Proof.
  unfold cell, imap2. rewrite list_lookup_imap.
  destruct (g !! b) as [row|]; simpl; [|reflexivity].
  apply list_lookup_imap.
Qed.

Lemma cell_row {A} (g : list (list A)) b j x :
  cell g b j = Some x -> exists row, g !! b = Some row /\ row !! j = Some x.
Proof. unfold cell. destruct (g !! b) as [row|]; [eauto | discriminate]. Qed.

Lemma selected_false mask b j : cell mask b j = Some false -> selected mask b j = false.
Proof. unfold selected. intros ->. reflexivity. Qed.

(** [span_indices] returns on every non-empty tensor, the two index
    tensors have the shape of the input, protected cells are cleared in
    both, and so is every cell right of column 0 that no span covers. *)
Lemma span_indices_spec d inputs :
  inputs <> [] -> rectangular inputs -> rand_in_unit d ->
  exists k masked random,
    max_nspans d inputs = Ok k /\
    span_indices d inputs = Ok (masked, random) /\
    forall b j tok, cell inputs b j = Some tok ->
      exists mb rb,
        cell masked b j = Some mb /\ cell random b j = Some rb /\
        (special_token tok = true -> mb = false /\ rb = false) /\
        ((0 < j)%nat -> ~ covered d b (shape1 inputs) k j ->
         mb = false /\ rb = false).
Proof.
  intros Hne Hrect Hu. unfold span_indices.
  destruct (max_nspans d inputs) as [k|e] eqn:Hk.
  2:{ unfold max_nspans in Hk. destruct inputs; [congruence | discriminate]. }
  simpl.
  destruct (for_rows_total (span_row d (shape1 inputs) k) inputs 0%nat)
    as (rows & Hrows).
  { intros i row Hrow.
    assert (Hlen : length row = shape1 inputs).
    { unfold rectangular in Hrect. rewrite Forall_lookup in Hrect. eauto. }
    destruct (span_row_spec d _ k i row Hlen Hu) as (m & r & Hrun & _).
    simpl. eauto. }
  rewrite Hrows. simpl.
  exists k, (rows.*1), (rows.*2).
  split; [reflexivity|]. split; [reflexivity|].
  intros b j tok Hcell.
  apply cell_row in Hcell as (row & Hrow & Htok).
  assert (Hlen : length row = shape1 inputs).
  { unfold rectangular in Hrect. rewrite Forall_lookup in Hrect. eauto. }
  destruct (for_rows_lookup _ _ _ _ _ _ Hrows Hrow) as ([m r] & Hrun & Hlk).
  simpl in Hrun.
  destruct (span_row_spec d _ k b row Hlen Hu)
    as (m' & r' & Hrun' & Lm & Lr & Hsp & Hfree).
  rewrite Hrun in Hrun'. injection Hrun' as <- <-.
  assert (Hj : (j < shape1 inputs)%nat)
    by (rewrite <- Hlen; eapply lookup_lt_Some; eauto).
  destruct (lookup_lt_is_Some_2 m j) as [mb Hmb]; [lia|].
  destruct (lookup_lt_is_Some_2 r j) as [rb Hrb]; [lia|].
  exists mb, rb. unfold cell.
  rewrite !list_lookup_fmap, Hlk. simpl.
  split; [assumption|]. split; [assumption|]. split.
  - intros Hs. destruct (Hsp _ _ Htok Hs). split; congruence.
  - intros Hj0 Hnc. destruct (Hfree j ltac:(lia) Hnc). split; congruence.
Qed.

(** [span_mask] as a function of the index tensors. *)
Lemma span_mask_rewrite self d inputs v masked random :
  vocab_size self = Some v -> 0 < v ->
  span_indices d inputs = Ok (masked, random) ->
  exists inputs' labels',
    span_mask self d inputs = Ok (inputs', labels') /\
    forall b j tok, cell inputs b j = Some tok ->
      cell labels' b j =
        Some (if selected masked b j || selected random b j
              then tok else IGNORE) /\
      cell inputs' b j =
        Some (if selected random b j then randint d b j
              else if selected masked b j then mask_token self
              else tok).
Proof.
  intros Hv Hpos Hidx. unfold span_mask. rewrite Hv, Hidx. simpl.
  replace (v <=? 0) with false by (symmetry; apply Z.leb_gt; lia).
  eexists _, _. split; [reflexivity|].
  intros b j tok Hcell.
  rewrite !cell_imap2, Hcell. simpl. auto.
Qed.

(** ** Sample data *)

Lemma sample_inputs_rectangular : rectangular sample_inputs.
Proof. repeat constructor. Qed.

Lemma bare_inputs_rectangular : rectangular bare_inputs.
Proof. repeat constructor. Qed.

Lemma sample_draws_in_unit : rand_in_unit sample_draws.
Proof. intros b c. split; simpl; [discriminate | reflexivity]. Qed.

Lemma sample_select_in_unit : select_in_unit sample_mlm_draws.
Proof. intros b c. split; simpl; [discriminate | reflexivity]. Qed.

(** * The claims about [span_mask] *)

(** C1.  For every input tensor and every draw, [span_mask] returns, and
    every position that holds [CLS], [SEP] or [PAD] is in neither
    [masked_indices] nor [random_indices], keeps its input token, and has
    label -100. *)
Theorem span_mask_protects_special self d inputs v :
  vocab_size self = Some v -> 0 < v ->
  inputs <> [] -> rectangular inputs -> rand_in_unit d ->
  exists masked random inputs' labels',
    span_indices d inputs = Ok (masked, random) /\
    span_mask self d inputs = Ok (inputs', labels') /\
    forall b j tok,
      cell inputs b j = Some tok -> special_token tok = true ->
      cell masked b j = Some false /\ cell random b j = Some false /\
      cell inputs' b j = Some tok /\ cell labels' b j = Some IGNORE.
Proof.
  intros Hv Hpos Hne Hrect Hu.
  destruct (span_indices_spec d inputs Hne Hrect Hu)
    as (k & masked & random & _ & Hidx & Hcells).
  destruct (span_mask_rewrite self d inputs v _ _ Hv Hpos Hidx)
    as (inputs' & labels' & Hrun & Hout).
  exists masked, random, inputs', labels'.
  split; [assumption|]. split; [assumption|].
  intros b j tok Hcell Hsp.
  destruct (Hcells _ _ _ Hcell) as (mb & rb & Hm & Hr & Hprot & _).
  destruct (Hprot Hsp) as [-> ->].
  destruct (Hout _ _ _ Hcell) as [Hl Hi].
  rewrite (selected_false _ _ _ Hm), (selected_false _ _ _ Hr) in Hl, Hi.
  auto.
Qed.

Lemma span_mask_protects_special_witness :
  exists masked random inputs' labels',
    span_indices sample_draws sample_inputs = Ok (masked, random) /\
    span_mask ready_model sample_draws sample_inputs = Ok (inputs', labels') /\
    forall b j tok,
      cell sample_inputs b j = Some tok -> special_token tok = true ->
      cell masked b j = Some false /\ cell random b j = Some false /\
      cell inputs' b j = Some tok /\ cell labels' b j = Some IGNORE.
Proof.
  apply (span_mask_protects_special ready_model sample_draws sample_inputs 1000).
  - reflexivity.
  - lia.
  - discriminate.
  - exact sample_inputs_rectangular.
  - exact sample_draws_in_unit.
Defined.

(** C2.  For every input tensor and every draw, [span_mask] returns, and
    wherever the returned input token differs from the original one, the
    label is the original token. *)
Theorem span_mask_changed_token_labelled self d inputs v :
  vocab_size self = Some v -> 0 < v ->
  inputs <> [] -> rectangular inputs -> rand_in_unit d ->
  exists inputs' labels',
    span_mask self d inputs = Ok (inputs', labels') /\
    forall b j tok tok',
      cell inputs b j = Some tok -> cell inputs' b j = Some tok' ->
      tok' <> tok ->
      cell labels' b j = Some tok.
Proof.
  intros Hv Hpos Hne Hrect Hu.
  destruct (span_indices_spec d inputs Hne Hrect Hu)
    as (k & masked & random & _ & Hidx & _).
  destruct (span_mask_rewrite self d inputs v _ _ Hv Hpos Hidx)
    as (inputs' & labels' & Hrun & Hout).
  exists inputs', labels'. split; [assumption|].
  intros b j tok tok' Hcell Hcell' Hdiff.
  destruct (Hout _ _ _ Hcell) as [Hl Hi].
  rewrite Hl. rewrite Hi in Hcell'. injection Hcell' as Htok'.
  destruct (selected random b j); [rewrite orb_true_r; reflexivity|].
  destruct (selected masked b j); [reflexivity|].
  congruence.
Qed.

Lemma span_mask_changed_token_labelled_witness :
  exists inputs' labels',
    span_mask ready_model sample_draws sample_inputs = Ok (inputs', labels') /\
    forall b j tok tok',
      cell sample_inputs b j = Some tok -> cell inputs' b j = Some tok' ->
      tok' <> tok ->
      cell labels' b j = Some tok.
Proof.
  apply (span_mask_changed_token_labelled ready_model sample_draws
           sample_inputs 1000).
  - reflexivity.
  - lia.
  - discriminate.
  - exact sample_inputs_rectangular.
  - exact sample_draws_in_unit.
Defined.

(** C3, as stated: every non-protected position that no selected span
    covers keeps its token and gets label -100.  This fails in column 0,
    the index at which [scatter_] drops the writes of exhausted or
    unselected slots: on [bare_inputs] the first token 7 lies outside the
    only span, yet it is replaced by a random word and labelled 7. *)
Lemma span_mask_column0_counterexample :
  ~ (forall self d inputs v,
       vocab_size self = Some v -> 0 < v ->
       inputs <> [] -> rectangular inputs -> rand_in_unit d ->
       exists k inputs' labels',
         max_nspans d inputs = Ok k /\
         span_mask self d inputs = Ok (inputs', labels') /\
         forall b j tok,
           cell inputs b j = Some tok -> special_token tok = false ->
           ~ covered d b (shape1 inputs) k j ->
           cell inputs' b j = Some tok /\ cell labels' b j = Some IGNORE).
Proof.
  intros H.
  destruct (H ready_model sample_draws bare_inputs 1000 eq_refl eq_refl)
    as (k & inputs' & labels' & Hk & Hrun & Hcells).
  - discriminate.
  - exact bare_inputs_rectangular.
  - exact sample_draws_in_unit.
  - vm_compute in Hk. injection Hk as <-.
    vm_compute in Hrun. injection Hrun as <- <-.
    destruct (Hcells 0%nat 0%nat 7 eq_refl eq_refl) as [Hi _].
    + intros (c & len & s & e & Hl & Hlen & Hs & He & Hin).
      assert (E : start_idxs sample_draws 0 (shape1 bare_inputs) 1 = [1])
        by (vm_compute; reflexivity).
      rewrite E in Hs.
      destruct c as [|c]; simpl in Hs; [|discriminate].
      injection Hs as <-. simpl in Hin. lia.
    + discriminate.
Qed.

(** C3, amended: for every input tensor and every draw, [span_mask]
    returns, and every non-protected position right of column 0 that no
    selected span covers keeps its token and gets label -100. *)
Theorem span_mask_uncovered_unchanged self d inputs v :
  vocab_size self = Some v -> 0 < v ->
  inputs <> [] -> rectangular inputs -> rand_in_unit d ->
  exists k inputs' labels',
    max_nspans d inputs = Ok k /\
    span_mask self d inputs = Ok (inputs', labels') /\
    forall b j tok,
      cell inputs b j = Some tok -> special_token tok = false ->
      (0 < j)%nat ->
      ~ covered d b (shape1 inputs) k j ->
      cell inputs' b j = Some tok /\ cell labels' b j = Some IGNORE.
Proof.
  intros Hv Hpos Hne Hrect Hu.
  destruct (span_indices_spec d inputs Hne Hrect Hu)
    as (k & masked & random & Hk & Hidx & Hcells).
  destruct (span_mask_rewrite self d inputs v _ _ Hv Hpos Hidx)
    as (inputs' & labels' & Hrun & Hout).
  exists k, inputs', labels'.
  split; [assumption|]. split; [assumption|].
  intros b j tok Hcell _ Hj Hnc.
  destruct (Hcells _ _ _ Hcell) as (mb & rb & Hm & Hr & _ & Hfree).
  destruct (Hfree Hj Hnc) as [-> ->].
  destruct (Hout _ _ _ Hcell) as [Hl Hi].
  rewrite (selected_false _ _ _ Hm), (selected_false _ _ _ Hr) in Hl, Hi.
  auto.
Qed.

Lemma span_mask_uncovered_unchanged_witness :
  exists k inputs' labels',
    max_nspans sample_draws sample_inputs = Ok k /\
    span_mask ready_model sample_draws sample_inputs = Ok (inputs', labels') /\
    forall b j tok,
      cell sample_inputs b j = Some tok -> special_token tok = false ->
      (0 < j)%nat ->
      ~ covered sample_draws b (shape1 sample_inputs) k j ->
      cell inputs' b j = Some tok /\ cell labels' b j = Some IGNORE.
Proof.
  apply (span_mask_uncovered_unchanged ready_model sample_draws
           sample_inputs 1000).
  - reflexivity.
  - lia.
  - discriminate.
  - exact sample_inputs_rectangular.
  - exact sample_draws_in_unit.
Defined.

(** * The claims about the span lengths *)

Lemma ldist_trunc_nonneg d b n : Forall (fun x => 0 <= x) (ldist_trunc d b n).
Proof.
  apply Forall_lookup. intros j x. unfold ldist_trunc.
  rewrite list_lookup_fmap.
  destruct (seq 0 n !! j) as [i|]; simpl; [|discriminate].
  intros [= <-]. pose proof (ldist_trunc_cell_range (geometric d b i)). lia.
Qed.

(** Every span's end index is at most the sequence length. *)
Lemma end_idxs_le d b n k c e :
  end_idxs d b n k !! c = Some e -> 0 <= e <= Z.of_nat n.
Proof.
  intros H. apply end_idxs_lookup in H as (s & len & _ & _ & ->).
  apply clamp_bounds. lia.
Qed.

(** The lengths that pass the threshold [B] on the running sum add up to
    a value below [B], or to nothing. *)
Lemma kept_sum_below (B : Q) l :
  forall acc,
    Forall (fun x => 0 <= x) l ->
    let kept := zip_with (fun c x => if Qltb (inject_Z c) B then x else 0)
                         (cumsum_from acc l) l in
    0 <= sum_Z kept /\
    ((inject_Z (acc + sum_Z kept) < B)%Q \/ sum_Z kept = 0).
Proof.
  induction l as [|x l IH]; intros acc Hnn; simpl.
  - split; [lia | right; reflexivity].
  - apply Forall_cons in Hnn as [Hx Hnn].
    destruct (IH (acc + x) Hnn) as [Hsum Hcase]. simpl in Hsum, Hcase.
    destruct (Qltb (inject_Z (acc + x)) B) eqn:E.
    + apply Qltb_lt in E. split; [lia|]. left.
      destruct Hcase as [Hlt | ->].
      * rewrite Z.add_assoc. exact Hlt.
      * rewrite Z.add_0_r. exact E.
    + split; [lia|]. right.
      destruct Hcase as [Hlt | ->]; [|reflexivity].
      assert (Hge : (B <= inject_Z (acc + x))%Q).
      { apply Qnot_lt_le. intros Hlt'. apply Qltb_lt in Hlt'. congruence. }
      pose proof (Qlt_le_trans _ _ _ Hlt Hge) as Hz.
      rewrite <- Zlt_Qlt in Hz. lia.
Qed.

Lemma nmask_nonneg n : 0 <= nmask n.
Proof.
  unfold nmask. change 0 with (Qceiling 0). apply Qceiling_resp_le.
  apply Qmult_le_0_compat; [|discriminate].
  change 0%Q with (inject_Z 0). rewrite <- Zle_Qle. lia.
Qed.

(** The lengths kept for one sequence stay below the threshold of
    line 100. *)
Lemma budget_lengths_sum_lt d b n :
  (inject_Z (sum_Z (budget_lengths d b n)) < budget n)%Q.
Proof.
  destruct (kept_sum_below (budget n) (ldist_trunc d b n) 0
              (ldist_trunc_nonneg d b n)) as [_ [Hlt | Hz]].
  - exact Hlt.
  - unfold budget_lengths, cumsum. rewrite Hz.
    unfold budget.
    apply Qlt_le_trans with (1 / len_probability)%Q; [reflexivity|].
    rewrite <- (Qplus_0_l (1 / len_probability)) at 1.
    apply Qplus_le_l. change 0%Q with (inject_Z 0).
    rewrite <- Zle_Qle. apply nmask_nonneg.
Qed.

(** C8.  For every sequence and every draw, the span lengths kept by the
    budget allocator (row [b] of [lengths] before the column truncation)
    sum to at most ceil(sent_len * mlm_probability) + 1/len_probability
    + max_spanlen. *)
Theorem budget_lengths_sum_bound d b n :
  (inject_Z (sum_Z (budget_lengths d b n))
   <= inject_Z (nmask n) + 1 / len_probability + inject_Z max_spanlen)%Q.
Proof.
  apply Qle_trans with (budget n).
  - apply Qlt_le_weak, budget_lengths_sum_lt.
  - unfold budget.
    rewrite <- (Qplus_0_r (inject_Z (nmask n) + 1 / len_probability)) at 1.
    apply Qplus_le_r. discriminate.
Qed.

(** C4.  The candidate length of a cell whose geometric draw is 2 or
    more is 3, one more than [max_spanlen]; with such draws the length
    tensor of a four-token sequence keeps a span of length 3. *)
Theorem candidate_length_exceeds_max_spanlen :
  (forall x, ldist_trunc_cell (Z.max 2 x) = max_spanlen + 1) /\
  budget_lengths sample_draws 0 4 = [3; 0; 0; 0] /\
  max_spanlen < 3.
Proof.
  split; [|split; reflexivity].
  intros x. unfold ldist_trunc_cell, clamp, max_spanlen. lia.
Qed.

(** * The claims about the gamma schedule and the forward pass *)

Lemma advances_state k :
  forall self,
    gamma_idx (advances k self) = (k + gamma_idx self)%nat /\
    gammas (advances k self) = gammas self.
Proof.
  induction k as [|k IH]; intros self; simpl.
  - auto.
  - destruct (IH (advance self)) as [-> ->]. simpl. split; [lia | reflexivity].
Qed.

(** C5.  After [set_gammas([0.1, 0.3, 0.5])], [get_gamma] reads 0.1,
    0.3 and 0.5 after zero, one and two advances of the cursor, but
    raises [IndexError] after three or more; the guarded read inside
    [forward] holds at 0.5 from two advances on. *)
Theorem get_gamma_past_end_raises (self : model) (k : nat) :
  let m := set_gammas self sample_gammas in
  get_gamma (advances 0 m) = Ok (1 # 10)%Q /\
  get_gamma (advances 1 m) = Ok (3 # 10)%Q /\
  get_gamma (advances 2 m) = Ok (1 # 2)%Q /\
  get_gamma (advances (3 + k) m) = Raise IndexError /\
  gamma_current (advances (2 + k) m) = Ok (1 # 2)%Q.
Proof.
  intros m. repeat split.
  - unfold get_gamma.
    destruct (advances_state (3 + k) m) as [-> ->].
    simpl. unfold py_index. simpl. reflexivity.
  - unfold gamma_current.
    destruct (advances_state (2 + k) m) as [-> ->].
    destruct k as [|k].
    + reflexivity.
    + replace (Z.of_nat (length (gammas m)) - 1
               <? Z.of_nat (2 + S k + gamma_idx m)) with true.
      * reflexivity.
      * symmetry. apply Z.ltb_lt. simpl length. lia.
Qed.

(** C6.  With no gold positions and [mask_inputs] false, [forward]
    still prepends a loss: on any model whose schedule is non-empty and
    whose cursor is at its start, and on any ids the encoder accepts,
    the loss slot holds gamma * 0. *)
Theorem forward_loss_slot_always_present {outputs : Type}
  (network : list (list Z) -> option outputs)
  (qa_loss_fct : outputs -> list Z -> list Z -> Q)
  (mlm_loss_fct : outputs -> list (list Z) -> Q)
  (self : model) (g : Q) (gs : list Q) (d : span_draws)
  (input_ids : list (list Z)) (decay_gamma : bool) :
  let m := set_gammas self (g :: gs) in
  forward network qa_loss_fct mlm_loss_fct m d input_ids None None
          decay_gamma false
  = match network input_ids with
    | Some out => Ok (if decay_gamma then advance m else m,
                      (Some (g * 0)%Q, out))
    | None => Raise IndexError
    end.
Proof.
  intros m. unfold forward. simpl.
  destruct (network input_ids) as [out|]; [|reflexivity]. simpl.
  assert (Hg : gamma_current m = Ok g).
  { unfold gamma_current, m. simpl gammas. simpl gamma_idx.
    replace (Z.of_nat (length (g :: gs)) - 1 <? Z.of_nat 0) with false.
    - reflexivity.
    - symmetry. apply Z.ltb_ge. simpl length. lia. }
  rewrite Hg. reflexivity.
Qed.

(** C7.  Whenever [forward] gets past masking, the encoder and the
    schedule read, the loss it returns is
    [qa_loss + gamma_current * mlm_loss] if both gold positions were
    supplied and [gamma_current * mlm_loss] otherwise, where [mlm_loss]
    is 0 unless [mask_inputs] is set. *)
Theorem forward_total_loss {outputs : Type}
  (network : list (list Z) -> option outputs)
  (qa_loss_fct : outputs -> list Z -> list Z -> Q)
  (mlm_loss_fct : outputs -> list (list Z) -> Q)
  (self : model) (d : span_draws) (input_ids : list (list Z))
  (start_positions end_positions : option (list Z))
  (decay_gamma mask_inputs : bool)
  (g : Q) (input_ids' mlm_labels : list (list Z)) (out : outputs) :
  gamma_current self = Ok g ->
  (if mask_inputs then span_mask self d input_ids
   else Ok (input_ids, input_ids)) = Ok (input_ids', mlm_labels) ->
  network input_ids' = Some out ->
  let mlm_loss := if mask_inputs then mlm_loss_fct out mlm_labels else 0%Q in
  let bound := Z.of_nat (shape1 input_ids') in
  let total_loss :=
    match start_positions, end_positions with
    | Some sp, Some ep =>
        (qa_loss_fct out (clamp 0 bound <$> sp) (clamp 0 bound <$> ep)
         + g * mlm_loss)%Q
    | _, _ => (g * mlm_loss)%Q
    end in
  forward network qa_loss_fct mlm_loss_fct self d input_ids
          start_positions end_positions decay_gamma mask_inputs
  = Ok (if decay_gamma then advance self else self, (Some total_loss, out)).
Proof.
  intros Hg Hmask Hnet. unfold forward.
  rewrite Hmask. simpl. rewrite Hnet. simpl. rewrite Hg. simpl.
  destruct start_positions, end_positions; reflexivity.
Qed.

(** With gold positions, [mask_inputs] set, a mask token of the
    vocabulary and the cursor at 0.5, the encoder accepts the rewritten
    ids and the loss is qa_loss + 0.5 * mlm_loss. *)
Lemma forward_total_loss_witness :
  forward sample_network (fun _ _ _ => 3 # 1)%Q (fun _ _ => 2 # 1)%Q
          (advances 2 (set_gammas masking_model sample_gammas))
          sample_draws sample_inputs (Some [1; 20]) (Some [3; 4])
          true true
  = Ok (advances 3 (set_gammas masking_model sample_gammas),
        (Some ((3 # 1) + (1 # 2) * (2 # 1))%Q,
         [[101; 8; 103; 103; 11; 12; 13; 102];
          [101; 8; 103; 103; 11; 102; 0; 0]])).
Proof.
  exact (forward_total_loss sample_network (fun _ _ _ => 3 # 1)%Q
           (fun _ _ => 2 # 1)%Q
           (advances 2 (set_gammas masking_model sample_gammas))
           sample_draws sample_inputs (Some [1; 20]) (Some [3; 4])
           true true (1 # 2)%Q
           [[101; 8; 103; 103; 11; 12; 13; 102];
            [101; 8; 103; 103; 11; 102; 0; 0]]
           [[-100; -100; 9; 10; -100; -100; -100; -100];
            [-100; -100; 9; 10; -100; -100; -100; -100]]
           [[101; 8; 103; 103; 11; 12; 13; 102];
            [101; 8; 103; 103; 11; 102; 0; 0]]
           eq_refl eq_refl eq_refl).
Defined.

(** C9.  Without a configured vocabulary size, [span_mask], [mlm_mask]
    and a forward pass with [mask_inputs] set all raise the
    [AttributeError] whose message names [add_vocab_size]. *)
Theorem masking_without_vocab_size_raises {outputs : Type}
  (network : list (list Z) -> option outputs)
  (qa_loss_fct : outputs -> list Z -> list Z -> Q)
  (mlm_loss_fct : outputs -> list (list Z) -> Q)
  (self : model) (d : span_draws) (md : mlm_draws)
  (inputs : list (list Z))
  (start_positions end_positions : option (list Z)) (decay_gamma : bool) :
  vocab_size self = None ->
  span_mask self d inputs = Raise (AttributeError vocab_msg) /\
  mlm_mask self md inputs = Raise (AttributeError vocab_msg) /\
  forward network qa_loss_fct mlm_loss_fct self d inputs
          start_positions end_positions decay_gamma true
    = Raise (AttributeError vocab_msg) /\
  mentions vocab_msg "add_vocab_size" = true.
Proof.
  intros Hv. unfold forward, span_mask, mlm_mask. rewrite Hv.
  repeat split.
Qed.

Lemma masking_without_vocab_size_raises_witness :
  span_mask init sample_draws sample_inputs = Raise (AttributeError vocab_msg) /\
  mlm_mask init sample_mlm_draws sample_inputs
    = Raise (AttributeError vocab_msg) /\
  forward sample_network (fun _ _ _ => 3 # 1)%Q (fun _ _ => 2 # 1)%Q
          init sample_draws sample_inputs (Some [1; 20]) (Some [3; 4])
          false true
    = Raise (AttributeError vocab_msg) /\
  mentions vocab_msg "add_vocab_size" = true.
Proof.
  apply (masking_without_vocab_size_raises sample_network
           (fun _ _ _ => 3 # 1)%Q (fun _ _ => 2 # 1)%Q
           init sample_draws sample_mlm_draws sample_inputs).
  reflexivity.
Defined.

(** * The claim about [mlm_mask] *)

Lemma bernoulli_zero u : (0 <= u)%Q -> bernoulli 0 u = false.
Proof.
  intros Hu. unfold bernoulli.
  destruct (Qltb u 0) eqn:E; [|reflexivity].
  apply Qltb_lt in E. exfalso. exact (Qlt_not_le _ _ E Hu).
Qed.

(** C10.  For every input tensor and every draw, [mlm_mask] returns, and
    every position that holds [CLS], [SEP] or [PAD] has selection
    probability 0, is not selected, keeps its input token, and has
    label -100. *)
Theorem mlm_mask_protects_special self d inputs v :
  vocab_size self = Some v -> 0 < v -> select_in_unit d ->
  exists inputs' labels',
    mlm_mask self d inputs = Ok (inputs', labels') /\
    forall b j tok,
      cell inputs b j = Some tok -> special_token tok = true ->
      cell (probability_matrix inputs) b j = Some 0%Q /\
      cell (mlm_masked_indices d inputs) b j = Some false /\
      cell inputs' b j = Some tok /\ cell labels' b j = Some IGNORE.
Proof.
  intros Hv Hpos Hu. unfold mlm_mask. rewrite Hv.
  replace (v <=? 0) with false by (symmetry; apply Z.leb_gt; lia).
  eexists _, _. split; [reflexivity|].
  intros b j tok Hcell Hsp.
  assert (Hp : cell (probability_matrix inputs) b j = Some 0%Q).
  { unfold probability_matrix. rewrite cell_imap2, Hcell. simpl.
    rewrite Hsp. reflexivity. }
  assert (Hm : cell (mlm_masked_indices d inputs) b j = Some false).
  { unfold mlm_masked_indices. rewrite cell_imap2, Hp. simpl.
    rewrite bernoulli_zero; [reflexivity | apply Hu]. }
  assert (Hrep : selected (indices_replaced d inputs) b j = false).
  { apply selected_false. unfold indices_replaced.
    rewrite cell_imap2, Hm. simpl. rewrite andb_false_r. reflexivity. }
  assert (Hrnd : selected (indices_random d inputs) b j = false).
  { apply selected_false. unfold indices_random.
    rewrite cell_imap2, Hm. simpl. rewrite andb_false_r. reflexivity. }
  split; [assumption|]. split; [assumption|].
  rewrite !cell_imap2, Hcell. simpl.
  rewrite Hrep, Hrnd, (selected_false _ _ _ Hm). auto.
Qed.

Lemma mlm_mask_protects_special_witness :
  exists inputs' labels',
    mlm_mask ready_model sample_mlm_draws sample_inputs
      = Ok (inputs', labels') /\
    forall b j tok,
      cell sample_inputs b j = Some tok -> special_token tok = true ->
      cell (probability_matrix sample_inputs) b j = Some 0%Q /\
      cell (mlm_masked_indices sample_mlm_draws sample_inputs) b j
        = Some false /\
      cell inputs' b j = Some tok /\ cell labels' b j = Some IGNORE.
Proof.
  apply (mlm_mask_protects_special ready_model sample_mlm_draws
           sample_inputs 1000).
  - reflexivity.
  - lia.
  - exact sample_select_in_unit.
Defined.

(** * Further properties of the budget allocator (lines 94-102) *)

Lemma ldist_trunc_positive d b n : Forall (fun x => 1 <= x) (ldist_trunc d b n).
Proof.
  apply Forall_lookup. intros j x. unfold ldist_trunc.
  rewrite list_lookup_fmap.
  destruct (seq 0 n !! j) as [i|]; simpl; [|discriminate].
  intros [= <-]. pose proof (ldist_trunc_cell_range (geometric d b i)). lia.
Qed.

Lemma ldist_trunc_bounded d b n :
  Forall (fun x => x <= max_spanlen + 1) (ldist_trunc d b n).
Proof.
  apply Forall_lookup. intros j x. unfold ldist_trunc.
  rewrite list_lookup_fmap.
  destruct (seq 0 n !! j) as [i|]; simpl; [|discriminate].
  intros [= <-]. pose proof (ldist_trunc_cell_range (geometric d b i)). lia.
Qed.

Lemma count_nonzero_app l1 l2 :
  count_nonzero (l1 ++ l2) = (count_nonzero l1 + count_nonzero l2)%nat.
Proof.
  induction l1 as [|x l1 IH]; simpl; [reflexivity|].
  destruct (x =? 0); simpl; lia.
Qed.

Lemma count_nonzero_zeros m : count_nonzero (replicate m 0) = 0%nat.
Proof. induction m; simpl; auto. Qed.

Lemma count_nonzero_positive l :
  Forall (fun x => 1 <= x) l -> count_nonzero l = length l.
Proof.
  induction 1 as [|x l Hx _ IH]; simpl; [reflexivity|].
  replace (x =? 0) with false by (symmetry; apply Z.eqb_neq; lia).
  lia.
Qed.

(** Once the running sum has reached the threshold, nothing is kept. *)
Lemma kept_none (B : Q) l :
  forall acc,
    Forall (fun x => 1 <= x) l -> (B <= inject_Z acc)%Q ->
    zip_with (fun c x => if Qltb (inject_Z c) B then x else 0)
             (cumsum_from acc l) l
    = replicate (length l) 0.
Proof.
  induction l as [|x l IH]; intros acc Hpos HB; simpl; [reflexivity|].
  apply Forall_cons in Hpos as [Hx Hpos].
  assert (HB' : (B <= inject_Z (acc + x))%Q).
  { eapply Qle_trans; [exact HB|]. rewrite <- Zle_Qle. lia. }
  destruct (Qltb (inject_Z (acc + x)) B) eqn:E.
  - apply Qltb_lt in E. exfalso. exact (Qlt_not_le _ _ E HB').
  - f_equal. apply IH; assumption.
Qed.

(** The kept lengths are a prefix of the candidates, followed by zeros. *)
Lemma kept_prefix (B : Q) l :
  forall acc,
    Forall (fun x => 1 <= x) l ->
    let kept := zip_with (fun c x => if Qltb (inject_Z c) B then x else 0)
                         (cumsum_from acc l) l in
    kept = take (count_nonzero kept) l
           ++ replicate (length l - count_nonzero kept) 0.
Proof.
  induction l as [|x l IH]; intros acc Hpos; simpl; [reflexivity|].
  pose proof Hpos as Hpos'.
  apply Forall_cons in Hpos as [Hx Hpos].
  destruct (Qltb (inject_Z (acc + x)) B) eqn:E.
  - replace (x =? 0) with false by (symmetry; apply Z.eqb_neq; lia).
    simpl. f_equal. apply IH. assumption.
  - simpl. rewrite kept_none; try assumption.
    + rewrite count_nonzero_zeros. simpl. reflexivity.
    + apply Qnot_lt_le. intros H. apply Qltb_lt in H. congruence.
Qed.

Lemma budget_lengths_prefix d b n :
  budget_lengths d b n
  = take (nspans d b n) (ldist_trunc d b n)
    ++ replicate (n - nspans d b n) 0.
Proof.
  pose proof (kept_prefix (budget n) (ldist_trunc d b n) 0
                (ldist_trunc_positive d b n)) as H.
  simpl in H. rewrite length_ldist_trunc in H. exact H.
Qed.

Lemma nspans_le d b n : (nspans d b n <= n)%nat.
Proof.
  unfold nspans. rewrite budget_lengths_prefix at 1.
  rewrite count_nonzero_app, count_nonzero_zeros, count_nonzero_positive.
  - rewrite length_take, length_ldist_trunc. lia.
  - apply Forall_take, ldist_trunc_positive.
Qed.

Lemma max_nspans_bounds d inputs k b :
  max_nspans d inputs = Ok k -> (b < length inputs)%nat ->
  (nspans d b (shape1 inputs) <= k)%nat.
Proof.
  intros Hk Hb. unfold max_nspans in Hk.
  destruct inputs as [|row rest] eqn:E; [discriminate|].
  rewrite <- E in *. injection Hk as <-.
  apply max_list_elem_of_le, list_elem_of_lookup. exists b.
  rewrite list_lookup_imap.
  destruct (lookup_lt_is_Some_2 inputs b Hb) as [r ->]. reflexivity.
Qed.

(** X1.  The column truncation of line 102 drops no span: in every row
    of the batch, the truncated length row holds as many non-zero lengths
    as the row before truncation, and the same total length. *)
Theorem truncation_keeps_every_span d inputs k b :
  max_nspans d inputs = Ok k -> (b < length inputs)%nat ->
  count_nonzero (lengths d b (shape1 inputs) k)
    = nspans d b (shape1 inputs) /\
  sum_Z (lengths d b (shape1 inputs) k)
    = sum_Z (budget_lengths d b (shape1 inputs)).
Proof.
  intros Hk Hb.
  pose proof (max_nspans_bounds d inputs k b Hk Hb) as Hle.
  set (n := shape1 inputs) in *.
  assert (E : lengths d b n k
              = take (nspans d b n) (ldist_trunc d b n)
                ++ replicate (k `min` n - nspans d b n) 0).
  { unfold lengths. rewrite budget_lengths_prefix.
    pose proof (nspans_le d b n) as Hn.
    assert (Hlen : length (take (nspans d b n) (ldist_trunc d b n))
                   = nspans d b n)
      by (rewrite length_take, length_ldist_trunc; lia).
    rewrite take_app_ge by lia. rewrite Hlen, take_replicate.
    f_equal. f_equal. lia. }
  split.
  - rewrite E, count_nonzero_app, count_nonzero_zeros, count_nonzero_positive.
    + rewrite length_take, length_ldist_trunc.
      pose proof (nspans_le d b n). lia.
    + apply Forall_take, ldist_trunc_positive.
  - assert (Hsum : forall l m, sum_Z (l ++ replicate m 0) = sum_Z l).
    { induction l as [|x l IH]; intros m; simpl.
      - induction m; simpl; lia.
      - rewrite IH. reflexivity. }
    rewrite E, (budget_lengths_prefix d b n), !Hsum. reflexivity.
Qed.

Lemma truncation_keeps_every_span_witness :
  count_nonzero (lengths sample_draws 1 (shape1 sample_inputs) 2)
    = nspans sample_draws 1 (shape1 sample_inputs) /\
  sum_Z (lengths sample_draws 1 (shape1 sample_inputs) 2)
    = sum_Z (budget_lengths sample_draws 1 (shape1 sample_inputs)).
Proof.
  apply (truncation_keeps_every_span sample_draws sample_inputs 2 1).
  - reflexivity.
  - simpl. lia.
Defined.

Lemma count_nonzero_le_sum l :
  Forall (fun x => x = 0 \/ 1 <= x) l -> Z.of_nat (count_nonzero l) <= sum_Z l.
Proof.
  induction 1 as [|x l Hx _ IH]; simpl; [lia|].
  destruct (Z.eqb_spec x 0); lia.
Qed.

Lemma budget_lengths_cells d b n :
  Forall (fun x => x = 0 \/ 1 <= x) (budget_lengths d b n).
Proof.
  apply Forall_lookup. intros j x H. unfold budget_lengths in H.
  apply lookup_zip_with_Some in H as (c & l & -> & _ & Hl).
  destruct (Qltb (inject_Z c) (budget n)); [right | left; reflexivity].
  pose proof (ldist_trunc_positive d b n) as Hpos.
  rewrite Forall_lookup in Hpos. exact (Hpos _ _ Hl).
Qed.

Lemma budget_above_candidates n : (inject_Z (max_spanlen + 1) < budget n)%Q.
Proof.
  unfold budget.
  apply Qlt_le_trans with (1 / len_probability)%Q; [reflexivity|].
  rewrite <- (Qplus_0_l (1 / len_probability)) at 1.
  apply Qplus_le_l. change 0%Q with (inject_Z 0).
  rewrite <- Zle_Qle. apply nmask_nonneg.
Qed.

Lemma nspans_positive d b n : (1 <= nspans d b (S n))%nat.
Proof.
  unfold nspans, budget_lengths, ldist_trunc, cumsum. simpl.
  pose proof (ldist_trunc_cell_range (geometric d b 0)) as Hr.
  assert (Hlt : Qltb (inject_Z (0 + ldist_trunc_cell (geometric d b 0)))
                     (budget (S n)) = true).
  { apply Qltb_lt.
    eapply Qle_lt_trans; [|apply budget_above_candidates].
    rewrite <- Zle_Qle. lia. }
  rewrite Hlt.
  replace (ldist_trunc_cell (geometric d b 0) =? 0) with false
    by (symmetry; apply Z.eqb_neq; lia).
  lia.
Qed.

Lemma nspans_below_budget d b n :
  (inject_Z (Z.of_nat (nspans d b n)) < budget n)%Q.
Proof.
  eapply Qle_lt_trans; [|apply (budget_lengths_sum_lt d b n)].
  rewrite <- Zle_Qle. apply count_nonzero_le_sum, budget_lengths_cells.
Qed.

(** X2.  Every non-empty sequence keeps at least one span, and the
    number of spans of a sequence stays below the threshold
    ceil(sent_len * mlm_probability) + 1/len_probability of line 100. *)
Theorem nspans_bounds d b n :
  (1 <= nspans d b (S n))%nat /\
  (inject_Z (Z.of_nat (nspans d b n)) < budget n)%Q.
Proof.
  split; [apply nspans_positive | apply nspans_below_budget].
Qed.

(** The allocator stops only when the budget is within one candidate
    length of being used up. *)
Lemma kept_all_or_full (B : Q) (M : Z) l :
  forall acc,
    Forall (fun x => 0 <= x) l -> Forall (fun x => x <= M) l ->
    let kept := zip_with (fun c x => if Qltb (inject_Z c) B then x else 0)
                         (cumsum_from acc l) l in
    kept = l \/ (B <= inject_Z (acc + sum_Z kept + M))%Q.
Proof.
  induction l as [|x l IH]; intros acc Hnn Hle; simpl; [left; reflexivity|].
  apply Forall_cons in Hle as [Hx Hle].
  pose proof Hnn as Hnn'. apply Forall_cons in Hnn' as [Hx0 Hnn'].
  destruct (kept_sum_below B l (acc + x) Hnn') as [Hsum _]. simpl in Hsum.
  destruct (Qltb (inject_Z (acc + x)) B) eqn:E.
  - destruct (IH (acc + x) Hnn' Hle) as [-> | Hfull]; [left; reflexivity|].
    right. simpl. rewrite Z.add_assoc. exact Hfull.
  - right. simpl.
    assert (Hge : (B <= inject_Z (acc + x))%Q).
    { apply Qnot_lt_le. intros H. apply Qltb_lt in H. congruence. }
    eapply Qle_trans; [exact Hge|]. rewrite <- Zle_Qle. lia.
Qed.

(** X3.  The budget is used up to one candidate length: either every
    cell of the sequence is kept as a span, or the kept lengths sum to at
    least T - (max_spanlen + 1), where T is the threshold
    ceil(sent_len * mlm_probability) + 1/len_probability of line 100 and
    max_spanlen + 1 = 3 is the largest candidate length. *)
Theorem budget_lengths_fill_budget d b n :
  budget_lengths d b n = ldist_trunc d b n \/
  (budget n - inject_Z (max_spanlen + 1)
   <= inject_Z (sum_Z (budget_lengths d b n)))%Q.
Proof.
  destruct (kept_all_or_full (budget n) (max_spanlen + 1) (ldist_trunc d b n) 0
              (ldist_trunc_nonneg d b n) (ldist_trunc_bounded d b n))
    as [H | H].
  - left. exact H.
  - right. fold (cumsum (ldist_trunc d b n)) in H.
    fold (budget_lengths d b n) in H.
    rewrite Z.add_0_l, inject_Z_plus in H.
    apply (Qplus_le_l _ _ (inject_Z (max_spanlen + 1))).
    eapply Qle_trans; [|exact H].
    apply Qle_lteq. right. ring.
Qed.

(** * Which cells the span-filling loop marks (lines 114-124) *)

(** A scatter of ones marks exactly the cells its index names. *)
Lemma scatter_ones (j : nat) index :
  forall self src out,
    scatter_ self index src = Ok out ->
    Forall (fun v => v = 1) src ->
    (length index <= length src)%nat ->
    (j < length self)%nat ->
    out !! j = if bool_decide (Z.of_nat j ∈ index) then Some 1 else self !! j.
Proof.
  induction index as [|i index IH]; intros self src out H Hones Hlen Hj;
    simpl in H.
  - injection H as <-. reflexivity.
  - destruct src as [|v src]; [simpl in Hlen; lia|].
    apply Forall_cons in Hones as [-> Hones].
    destruct ((0 <=? i) && (i <? Z.of_nat (length self))) eqn:E;
      [|discriminate].
    apply andb_true_iff in E as [E1 E2].
    apply Z.leb_le in E1. apply Z.ltb_lt in E2.
    rewrite (IH _ _ _ H Hones) by (simpl in Hlen; rewrite ?length_insert; lia).
    destruct (decide (Z.of_nat j = i)) as [<- | Hne].
    + rewrite Nat2Z.id, list_lookup_insert_eq by lia.
      rewrite (bool_decide_eq_true_2 (Z.of_nat j ∈ Z.of_nat j :: index))
        by (left).
      destruct (bool_decide (Z.of_nat j ∈ index)); reflexivity.
    + rewrite list_lookup_insert_ne by lia.
      destruct (bool_decide_reflect (Z.of_nat j ∈ index)) as [Hin | Hnin].
      * rewrite bool_decide_eq_true_2 by (right; exact Hin). reflexivity.
      * rewrite bool_decide_eq_false_2; [reflexivity|].
        intros Hin. apply elem_of_cons in Hin as [? | ?]; congruence.
Qed.

Section FillMarks.
Variables ends mspans rspans incr : list Z.
Hypothesis incr_ones : Forall (fun v => v = 1) incr.

Lemma advance_by_one current c cur :
  (length current <= length incr)%nat ->
  current !! c = Some cur ->
  zip_with Z.add current incr !! c = Some (cur + 1).
Proof.
  intros Hlen Hcur.
  destruct (lookup_lt_is_Some_2 incr c) as [i Hi].
  { apply lookup_lt_Some in Hcur. lia. }
  rewrite Forall_lookup in incr_ones.
  rewrite (incr_ones _ _ Hi) in Hi.
  rewrite lookup_zip_with, Hcur, Hi. reflexivity.
Qed.

Lemma length_advance current :
  (length current <= length incr)%nat ->
  length (zip_with Z.add current incr) = length current.
Proof. intros H. rewrite length_zip_with. lia. Qed.

Lemma length_scatter_index current spans :
  (length (zip_with Z.mul (token_indices current ends) spans)
   <= length current)%nat.
Proof. unfold token_indices. rewrite !length_zip_with. lia. Qed.

(** The loop leaves a one in the cells [written] names and nothing
    elsewhere. *)
Lemma fill_spans_written (j : nat) iters :
  forall masked random current m r,
    (length current <= length incr)%nat ->
    (j < length masked)%nat -> (j < length random)%nat ->
    fill_spans iters ends mspans rspans incr masked random current
      = Ok (m, r) ->
    m !! j = (if written (Z.of_nat j) iters ends mspans incr current
              then Some 1 else masked !! j) /\
    r !! j = (if written (Z.of_nat j) iters ends rspans incr current
              then Some 1 else random !! j).
Proof.
  induction iters as [|iters IH]; intros masked random current m r
    Hlen Hjm Hjr H; simpl in H.
  - injection H as <- <-. auto.
  - apply bind_Ok in H as (masked' & Hm & H).
    apply bind_Ok in H as (random' & Hr & H).
    pose proof (length_scatter_index current mspans) as Lm.
    pose proof (length_scatter_index current rspans) as Lr.
    assert (Em := scatter_ones j _ _ _ _ Hm incr_ones).
    assert (Er := scatter_ones j _ _ _ _ Hr incr_ones).
    specialize (Em ltac:(lia) Hjm). specialize (Er ltac:(lia) Hjr).
    destruct (IH masked' random' (zip_with Z.add current incr) m r)
      as [Hm' Hr']; auto.
    + rewrite length_advance; lia.
    + rewrite (scatter_length _ _ _ _ Hm). exact Hjm.
    + rewrite (scatter_length _ _ _ _ Hr). exact Hjr.
    + split.
      * rewrite Hm', Em. clear. simpl.
        destruct (bool_decide _), (written _ _ _ mspans _ _); reflexivity.
      * rewrite Hr', Er. clear. simpl.
        destruct (bool_decide _), (written _ _ _ rspans _ _); reflexivity.
Qed.

(** [written] in terms of the columns: some slot, at some iteration,
    yields the index [j]. *)
Lemma written_iff (j : Z) spans iters :
  forall current,
    (length current <= length incr)%nat ->
    written j iters ends spans incr current = true <->
    exists t c cur e s,
      (t < iters)%nat /\
      current !! c = Some cur /\ ends !! c = Some e /\ spans !! c = Some s /\
      j = (if cur + Z.of_nat t <? e then cur + Z.of_nat t else 0) * s.
Proof.
  induction iters as [|iters IH]; intros current Hlen; simpl.
  - split; [discriminate | intros (t & _ & _ & _ & _ & Ht & _); lia].
  - rewrite orb_true_iff, bool_decide_eq_true.
    rewrite (IH (zip_with Z.add current incr))
      by (rewrite length_advance; lia).
    split.
    + intros [Hin | (t & c & cur' & e & s & Ht & Hcur' & He & Hs & ->)].
      * apply list_elem_of_lookup in Hin as [c Hc].
        apply lookup_zip_with_Some in Hc as (tok & s & -> & Htok & Hs).
        unfold token_indices in Htok.
        apply lookup_zip_with_Some in Htok as (cur & e & -> & Hcur & He).
        exists 0%nat, c, cur, e, s. rewrite Z.add_0_r.
        repeat split; auto; lia.
      * destruct (lookup_lt_is_Some_2 current c) as [cur Hcur].
        { apply lookup_lt_Some in Hcur'.
          rewrite length_advance in Hcur'; lia. }
        rewrite (advance_by_one _ _ _ Hlen Hcur) in Hcur'.
        injection Hcur' as <-.
        exists (S t), c, cur, e, s.
        replace (cur + Z.of_nat (S t)) with (cur + 1 + Z.of_nat t) by lia.
        repeat split; auto; lia.
    + intros (t & c & cur & e & s & Ht & Hcur & He & Hs & ->).
      destruct t as [|t].
      * left. apply list_elem_of_lookup. exists c.
        rewrite Z.add_0_r.
        unfold token_indices. rewrite !lookup_zip_with, Hcur, He, Hs.
        reflexivity.
      * right. exists t, c, (cur + 1), e, s.
        replace (cur + 1 + Z.of_nat t) with (cur + Z.of_nat (S t)) by lia.
        repeat split; auto; [lia|].
        apply advance_by_one; assumption.
Qed.
End FillMarks.

Lemma increment_ones d b n k : Forall (fun v => v = 1) (increment d b n k).
Proof.
  apply Forall_lookup. intros c x. unfold increment.
  rewrite list_lookup_fmap.
  destruct (start_idxs d b n k !! c); simpl; [|discriminate].
  intros [= <-]. reflexivity.
Qed.

Lemma length_start_idxs d b n k :
  length (start_idxs d b n k) = length (lengths d b n k).
Proof. unfold start_idxs. apply length_imap. Qed.

Lemma length_increment d b n k :
  length (increment d b n k) = length (start_idxs d b n k).
Proof. unfold increment. apply length_fmap. Qed.

(** For a cell right of column 0, being written by the loop is being
    marked by a span whose policy flag is set. *)
Lemma written_marked (policy : nat -> bool) d b n k (j : nat) :
  (0 < j)%nat ->
  written (Z.of_nat j) (Z.to_nat max_spanlen) (end_idxs d b n k)
          (imap (fun c _ => Z.b2z (policy c)) (lengths d b n k))
          (increment d b n k) (start_idxs d b n k) = true
  <-> marked policy d b n k j.
Proof.
  intros Hj.
  rewrite (written_iff _ _ (increment_ones d b n k))
    by (rewrite length_increment; lia).
  change (Z.to_nat max_spanlen) with 2%nat.
  split.
  - intros (t & c & cur & e & s & Ht & Hcur & He & Hs & Hjs).
    rewrite list_lookup_imap in Hs.
    destruct (start_idxs_lookup _ _ _ _ _ _ Hcur) as (len & Hl & Ecur).
    destruct (end_idxs_lookup _ _ _ _ _ _ He) as (s' & len' & Hs' & Hl' & Ee).
    assert (s' = cur) by congruence. assert (len' = len) by congruence.
    subst s' len'. rewrite Hl in Hs. simpl in Hs. injection Hs as <-.
    destruct (policy c) eqn:Hp; simpl in Hjs; [|lia].
    destruct (Z.ltb_spec (cur + Z.of_nat t) e) as [Hlt|]; [|lia].
    assert (Hpos : 0 < len).
    { destruct (Z.ltb_spec 0 len) as [|Hnp]; [assumption|].
      exfalso. revert Hlt. rewrite Ee, Ecur. unfold start_idx.
      replace (0 <? len) with false by (symmetry; apply Z.ltb_ge; lia).
      unfold clamp. lia. }
    exists c, len, cur, e. unfold max_spanlen. repeat split; auto; lia.
  - intros (c & len & s & e & Hl & Hpos & Hs & He & Hp & Hin & Hlt).
    exists (Z.to_nat (Z.of_nat j - s)), c, s, e, 1.
    unfold max_spanlen in Hlt.
    repeat split; auto.
    + lia.
    + rewrite list_lookup_imap, Hl. simpl. rewrite Hp. reflexivity.
    + rewrite Z2Nat.id by lia.
      replace (s + (Z.of_nat j - s)) with (Z.of_nat j) by lia.
      replace (Z.of_nat j <? e) with true by (symmetry; apply Z.ltb_lt; lia).
      lia.
Qed.

(** The two index rows of [span_row], cell by cell. *)
Lemma span_row_exact d n k b row m r :
  span_row d n k b row = Ok (m, r) ->
  forall j tok, row !! j = Some tok ->
    m !! j = Some (negb (special_token tok) &&
                   written (Z.of_nat j) (Z.to_nat max_spanlen)
                     (end_idxs d b n k) (masked_spans d b n k)
                     (increment d b n k) (start_idxs d b n k)) /\
    r !! j = Some (negb (special_token tok) &&
                   written (Z.of_nat j) (Z.to_nat max_spanlen)
                     (end_idxs d b n k) (random_spans d b n k)
                     (increment d b n k) (start_idxs d b n k)).
Proof.
  intros Hrun j tok Htok. unfold span_row in Hrun.
  apply bind_Ok in Hrun as ([mi ri] & Hfill & Hout).
  injection Hout as <- <-.
  assert (Hj : (j < length ((fun _ : Z => 0%Z) <$> row))%nat)
    by (rewrite length_fmap; eapply lookup_lt_Some; eauto).
  assert (Hlen : (length (start_idxs d b n k)
                  <= length (increment d b n k))%nat)
    by (rewrite length_increment; lia).
  destruct (fill_spans_written _ _ _ _ (increment_ones d b n k) j _
              _ _ _ _ _ Hlen Hj Hj Hfill) as [Hm Hr].
  assert (Hz : ((fun _ : Z => 0) <$> row) !! j = Some 0)
    by (rewrite list_lookup_fmap, Htok; reflexivity).
  assert (Hs : (special_token <$> row) !! j = Some (special_token tok))
    by (rewrite list_lookup_fmap, Htok; reflexivity).
  rewrite Hz in Hm, Hr.
  split.
  - destruct (written _ _ _ (masked_spans d b n k) _ _);
      rewrite (protect_lookup _ _ _ _ _ Hs Hm);
      destruct (special_token tok); reflexivity.
  - destruct (written _ _ _ (random_spans d b n k) _ _);
      rewrite (protect_lookup _ _ _ _ _ Hs Hr);
      destruct (special_token tok); reflexivity.
Qed.

(** [span_indices] row by row. *)
Lemma span_indices_rows d inputs :
  inputs <> [] -> rectangular inputs -> rand_in_unit d ->
  exists k masked random,
    max_nspans d inputs = Ok k /\
    span_indices d inputs = Ok (masked, random) /\
    forall b row, inputs !! b = Some row ->
      length row = shape1 inputs /\
      exists m r,
        span_row d (shape1 inputs) k b row = Ok (m, r) /\
        masked !! b = Some m /\ random !! b = Some r.
Proof.
  intros Hne Hrect Hu. unfold span_indices.
  destruct (max_nspans d inputs) as [k|e] eqn:Hk.
  2:{ unfold max_nspans in Hk. destruct inputs; [congruence | discriminate]. }
  simpl.
  assert (Hlens : forall b row, inputs !! b = Some row ->
                                length row = shape1 inputs).
  { unfold rectangular in Hrect. rewrite Forall_lookup in Hrect. eauto. }
  destruct (for_rows_total (span_row d (shape1 inputs) k) inputs 0%nat)
    as (rows & Hrows).
  { intros i row Hrow.
    destruct (span_row_spec d _ k i row (Hlens _ _ Hrow) Hu)
      as (m & r & Hrun & _).
    simpl. eauto. }
  rewrite Hrows. simpl.
  exists k, (rows.*1), (rows.*2).
  split; [reflexivity|]. split; [reflexivity|].
  intros b row Hrow. split; [eauto|].
  destruct (for_rows_lookup _ _ _ _ _ _ Hrows Hrow) as ([m r] & Hrun & Hlk).
  simpl in Hrun. exists m, r.
  rewrite !list_lookup_fmap, Hlk. auto.
Qed.

(** The two index tensors of [span_indices], cell by cell. *)
Lemma span_indices_cells d inputs :
  inputs <> [] -> rectangular inputs -> rand_in_unit d ->
  exists k masked random,
    max_nspans d inputs = Ok k /\
    span_indices d inputs = Ok (masked, random) /\
    forall b j tok, cell inputs b j = Some tok ->
      let n := shape1 inputs in
      cell masked b j =
        Some (negb (special_token tok) &&
              written (Z.of_nat j) (Z.to_nat max_spanlen)
                (end_idxs d b n k) (masked_spans d b n k)
                (increment d b n k) (start_idxs d b n k)) /\
      cell random b j =
        Some (negb (special_token tok) &&
              written (Z.of_nat j) (Z.to_nat max_spanlen)
                (end_idxs d b n k) (random_spans d b n k)
                (increment d b n k) (start_idxs d b n k)).
Proof.
  intros Hne Hrect Hu.
  destruct (span_indices_rows d inputs Hne Hrect Hu)
    as (k & masked & random & Hk & Hidx & Hrows).
  exists k, masked, random. split; [assumption|]. split; [assumption|].
  intros b j tok Hcell n.
  apply cell_row in Hcell as (row & Hrow & Htok).
  destruct (Hrows _ _ Hrow) as (_ & m & r & Hrun & Hm & Hr).
  unfold cell. rewrite Hm, Hr.
  exact (span_row_exact _ _ _ _ _ _ _ Hrun _ _ Htok).
Qed.

Lemma selected_cell mask b j (x : bool) :
  cell mask b j = Some x -> selected mask b j = x.
Proof. unfold selected. intros ->. destruct x; reflexivity. Qed.

(** * Further properties of [span_mask] (lines 78-138) *)

(** X4.  Right of column 0, [masked_indices] holds exactly the
    non-protected cells that lie among the first [max_spanlen] positions
    of a selected span drawn for masking, and [random_indices] exactly
    those of a span drawn for randomizing. *)
Theorem span_indices_mark_spans d inputs :
  inputs <> [] -> rectangular inputs -> rand_in_unit d ->
  exists k masked random,
    max_nspans d inputs = Ok k /\
    span_indices d inputs = Ok (masked, random) /\
    forall b j tok, cell inputs b j = Some tok -> (0 < j)%nat ->
      (cell masked b j = Some true <->
       special_token tok = false /\
       marked (masked_span d b) d b (shape1 inputs) k j) /\
      (cell random b j = Some true <->
       special_token tok = false /\
       marked (random_span d b) d b (shape1 inputs) k j).
Proof.
  intros Hne Hrect Hu.
  destruct (span_indices_cells d inputs Hne Hrect Hu)
    as (k & masked & random & Hk & Hidx & Hcells).
  exists k, masked, random. split; [assumption|]. split; [assumption|].
  intros b j tok Hcell Hj.
  destruct (Hcells _ _ _ Hcell) as [Hm Hr]. cbv zeta in Hm, Hr.
  rewrite Hm, Hr.
  pose proof (written_marked (masked_span d b) d b (shape1 inputs) k j Hj)
    as Wm.
  pose proof (written_marked (random_span d b) d b (shape1 inputs) k j Hj)
    as Wr.
  fold (masked_spans d b (shape1 inputs) k) in Wm.
  fold (random_spans d b (shape1 inputs) k) in Wr.
  split.
  - rewrite <- Wm. split.
    + intros [= H]. apply andb_true_iff in H as [H1 H2].
      apply negb_true_iff in H1. auto.
    + intros [H1 H2]. rewrite H1, H2. reflexivity.
  - rewrite <- Wr. split.
    + intros [= H]. apply andb_true_iff in H as [H1 H2].
      apply negb_true_iff in H1. auto.
    + intros [H1 H2]. rewrite H1, H2. reflexivity.
Qed.

Lemma span_indices_mark_spans_witness :
  exists k masked random,
    max_nspans sample_draws sample_inputs = Ok k /\
    span_indices sample_draws sample_inputs = Ok (masked, random) /\
    forall b j tok, cell sample_inputs b j = Some tok -> (0 < j)%nat ->
      (cell masked b j = Some true <->
       special_token tok = false /\
       marked (masked_span sample_draws b) sample_draws b
              (shape1 sample_inputs) k j) /\
      (cell random b j = Some true <->
       special_token tok = false /\
       marked (random_span sample_draws b) sample_draws b
              (shape1 sample_inputs) k j).
Proof.
  apply (span_indices_mark_spans sample_draws sample_inputs).
  - discriminate.
  - exact sample_inputs_rectangular.
  - exact sample_draws_in_unit.
Defined.

(** [span_mask] right of column 0, in terms of the marking spans. *)
Lemma span_mask_marked_cells self d inputs v :
  vocab_size self = Some v -> 0 < v ->
  inputs <> [] -> rectangular inputs -> rand_in_unit d ->
  exists k masked random inputs' labels',
    max_nspans d inputs = Ok k /\
    span_indices d inputs = Ok (masked, random) /\
    span_mask self d inputs = Ok (inputs', labels') /\
    forall b j tok, cell inputs b j = Some tok ->
      (cell labels' b j =
         Some (if selected masked b j || selected random b j
               then tok else IGNORE) /\
       cell inputs' b j =
         Some (if selected random b j then randint d b j
               else if selected masked b j then mask_token self
               else tok)) /\
      ((0 < j)%nat ->
       (selected masked b j = true <->
        special_token tok = false /\
        marked (masked_span d b) d b (shape1 inputs) k j) /\
       (selected random b j = true <->
        special_token tok = false /\
        marked (random_span d b) d b (shape1 inputs) k j)).
Proof.
  intros Hv Hpos Hne Hrect Hu.
  destruct (span_indices_cells d inputs Hne Hrect Hu)
    as (k & masked & random & Hk & Hidx & Hcells).
  destruct (span_mask_rewrite self d inputs v _ _ Hv Hpos Hidx)
    as (inputs' & labels' & Hrun & Hout).
  exists k, masked, random, inputs', labels'.
  repeat (split; [assumption|]).
  intros b j tok Hcell. split; [exact (Hout _ _ _ Hcell)|].
  intros Hj.
  destruct (Hcells _ _ _ Hcell) as [Hm Hr]. cbv zeta in Hm, Hr.
  rewrite (selected_cell _ _ _ _ Hm), (selected_cell _ _ _ _ Hr).
  pose proof (written_marked (masked_span d b) d b (shape1 inputs) k j Hj)
    as Wm.
  pose proof (written_marked (random_span d b) d b (shape1 inputs) k j Hj)
    as Wr.
  fold (masked_spans d b (shape1 inputs) k) in Wm.
  fold (random_spans d b (shape1 inputs) k) in Wr.
  rewrite <- Wm, <- Wr, !andb_true_iff, !negb_true_iff. tauto.
Qed.

(** X5.  Right of column 0, a non-protected cell marked by a span drawn
    for randomizing receives the random word drawn for it, a cell marked
    only by spans drawn for masking receives the mask token, and in both
    cases the label is the original token. *)
Theorem span_mask_rewrites_marked_cells self d inputs v :
  vocab_size self = Some v -> 0 < v ->
  inputs <> [] -> rectangular inputs -> rand_in_unit d ->
  exists k inputs' labels',
    max_nspans d inputs = Ok k /\
    span_mask self d inputs = Ok (inputs', labels') /\
    forall b j tok,
      cell inputs b j = Some tok -> special_token tok = false ->
      (0 < j)%nat ->
      (marked (random_span d b) d b (shape1 inputs) k j ->
       cell inputs' b j = Some (randint d b j) /\
       cell labels' b j = Some tok) /\
      (marked (masked_span d b) d b (shape1 inputs) k j ->
       ~ marked (random_span d b) d b (shape1 inputs) k j ->
       cell inputs' b j = Some (mask_token self) /\
       cell labels' b j = Some tok).
Proof.
  intros Hv Hpos Hne Hrect Hu.
  destruct (span_mask_marked_cells self d inputs v Hv Hpos Hne Hrect Hu)
    as (k & masked & random & inputs' & labels' & Hk & _ & Hrun & Hcells).
  exists k, inputs', labels'. split; [assumption|]. split; [assumption|].
  intros b j tok Hcell Hsp Hj.
  destruct (Hcells _ _ _ Hcell) as [[Hl Hi] Hsel].
  destruct (Hsel Hj) as [Hm Hr]. rewrite Hl, Hi. split.
  - intros Hmark.
    replace (selected random b j) with true by (symmetry; apply Hr; auto).
    rewrite orb_true_r. auto.
  - intros Hmark Hnr.
    replace (selected masked b j) with true by (symmetry; apply Hm; auto).
    destruct (selected random b j) eqn:E; [|auto].
    exfalso. apply Hnr, Hr. reflexivity.
Qed.

Lemma span_mask_rewrites_marked_cells_witness :
  exists k inputs' labels',
    max_nspans sample_draws sample_inputs = Ok k /\
    span_mask ready_model sample_draws sample_inputs = Ok (inputs', labels') /\
    forall b j tok,
      cell sample_inputs b j = Some tok -> special_token tok = false ->
      (0 < j)%nat ->
      (marked (random_span sample_draws b) sample_draws b
              (shape1 sample_inputs) k j ->
       cell inputs' b j = Some (randint sample_draws b j) /\
       cell labels' b j = Some tok) /\
      (marked (masked_span sample_draws b) sample_draws b
              (shape1 sample_inputs) k j ->
       ~ marked (random_span sample_draws b) sample_draws b
                (shape1 sample_inputs) k j ->
       cell inputs' b j = Some (mask_token ready_model) /\
       cell labels' b j = Some tok).
Proof.
  apply (span_mask_rewrites_marked_cells ready_model sample_draws
           sample_inputs 1000).
  - reflexivity.
  - lia.
  - discriminate.
  - exact sample_inputs_rectangular.
  - exact sample_draws_in_unit.
Defined.

(** X6.  Right of column 0, a cell that no masking span and no
    randomizing span marks keeps its token and gets label -100; this
    includes the cells of a span drawn for neither policy and the cells
    of a span beyond its first [max_spanlen] positions. *)
Theorem span_mask_unmarked_unchanged self d inputs v :
  vocab_size self = Some v -> 0 < v ->
  inputs <> [] -> rectangular inputs -> rand_in_unit d ->
  exists k inputs' labels',
    max_nspans d inputs = Ok k /\
    span_mask self d inputs = Ok (inputs', labels') /\
    forall b j tok,
      cell inputs b j = Some tok -> (0 < j)%nat ->
      ~ marked (masked_span d b) d b (shape1 inputs) k j ->
      ~ marked (random_span d b) d b (shape1 inputs) k j ->
      cell inputs' b j = Some tok /\ cell labels' b j = Some IGNORE.
Proof.
  intros Hv Hpos Hne Hrect Hu.
  destruct (span_mask_marked_cells self d inputs v Hv Hpos Hne Hrect Hu)
    as (k & masked & random & inputs' & labels' & Hk & _ & Hrun & Hcells).
  exists k, inputs', labels'. split; [assumption|]. split; [assumption|].
  intros b j tok Hcell Hj Hnm Hnr.
  destruct (Hcells _ _ _ Hcell) as [[Hl Hi] Hsel].
  destruct (Hsel Hj) as [Hm Hr]. rewrite Hl, Hi.
  destruct (selected masked b j) eqn:Em.
  { exfalso. apply Hnm, Hm. reflexivity. }
  destruct (selected random b j) eqn:Er.
  { exfalso. apply Hnr, Hr. reflexivity. }
  auto.
Qed.

Lemma span_mask_unmarked_unchanged_witness :
  exists k inputs' labels',
    max_nspans sample_draws sample_inputs = Ok k /\
    span_mask ready_model sample_draws sample_inputs = Ok (inputs', labels') /\
    forall b j tok,
      cell sample_inputs b j = Some tok -> (0 < j)%nat ->
      ~ marked (masked_span sample_draws b) sample_draws b
               (shape1 sample_inputs) k j ->
      ~ marked (random_span sample_draws b) sample_draws b
               (shape1 sample_inputs) k j ->
      cell inputs' b j = Some tok /\ cell labels' b j = Some IGNORE.
Proof.
  apply (span_mask_unmarked_unchanged ready_model sample_draws
           sample_inputs 1000).
  - reflexivity.
  - lia.
  - discriminate.
  - exact sample_inputs_rectangular.
  - exact sample_draws_in_unit.
Defined.

(** Slot 0 always sends one of its two writes to index 0. *)
Lemma column0_written d b n k len :
  lengths d b n k !! 0%nat = Some len ->
  (masked_span d b 0 = false ->
   written (Z.of_nat 0) (Z.to_nat max_spanlen) (end_idxs d b n k)
           (masked_spans d b n k) (increment d b n k) (start_idxs d b n k)
   = true) /\
  (masked_span d b 0 = true ->
   written (Z.of_nat 0) (Z.to_nat max_spanlen) (end_idxs d b n k)
           (random_spans d b n k) (increment d b n k) (start_idxs d b n k)
   = true).
Proof.
  intros Hl.
  assert (Hs : start_idxs d b n k !! 0%nat
               = Some (start_idx n len (rand d b 0)))
    by (unfold start_idxs; rewrite list_lookup_imap, Hl; reflexivity).
  assert (He : end_idxs d b n k !! 0%nat
               = Some (clamp 0 (Z.of_nat n)
                         (start_idx n len (rand d b 0) + len)))
    by (unfold end_idxs; rewrite lookup_zip_with, Hs, Hl; reflexivity).
  assert (Hlen : (length (start_idxs d b n k)
                  <= length (increment d b n k))%nat)
    by (rewrite length_increment; lia).
  split; intros Hp;
    apply (written_iff _ _ (increment_ones d b n k) _ _ _ _ Hlen);
    exists 0%nat, 0%nat, (start_idx n len (rand d b 0)),
           (clamp 0 (Z.of_nat n) (start_idx n len (rand d b 0) + len)), 0;
    (repeat split; auto; [change (Z.to_nat max_spanlen) with 2%nat; lia
                         | | simpl; lia]).
  - unfold masked_spans. rewrite list_lookup_imap, Hl. simpl.
    rewrite Hp. reflexivity.
  - unfold random_spans. rewrite list_lookup_imap, Hl. simpl.
    unfold random_span. rewrite Hp, andb_false_r. reflexivity.
Qed.

Lemma slot0_exists d inputs k b row :
  max_nspans d inputs = Ok k -> inputs !! b = Some row ->
  (0 < shape1 inputs)%nat ->
  exists len, lengths d b (shape1 inputs) k !! 0%nat = Some len.
Proof.
  intros Hk Hrow Hn.
  apply lookup_lt_is_Some_2.
  unfold lengths. rewrite length_take, length_budget_lengths.
  pose proof (max_nspans_bounds d inputs k b Hk
                ltac:(eapply lookup_lt_Some; eauto)) as Hle.
  destruct (shape1 inputs) as [|n]; [lia|].
  pose proof (nspans_positive d b n) as H1. lia.
Qed.

(** X7.  Column 0 is the dump index of the scatters: whenever it holds a
    non-protected token, that token is replaced by the mask token or by
    the random word drawn for it, and its label is the original token. *)
Theorem span_mask_column0_supervised self d inputs v :
  vocab_size self = Some v -> 0 < v ->
  inputs <> [] -> rectangular inputs -> rand_in_unit d ->
  exists inputs' labels',
    span_mask self d inputs = Ok (inputs', labels') /\
    forall b tok,
      cell inputs b 0 = Some tok -> special_token tok = false ->
      cell labels' b 0 = Some tok /\
      (cell inputs' b 0 = Some (mask_token self) \/
       cell inputs' b 0 = Some (randint d b 0)).
Proof.
  intros Hv Hpos Hne Hrect Hu.
  destruct (span_indices_cells d inputs Hne Hrect Hu)
    as (k & masked & random & Hk & Hidx & Hcells).
  destruct (span_mask_rewrite self d inputs v _ _ Hv Hpos Hidx)
    as (inputs' & labels' & Hrun & Hout).
  exists inputs', labels'. split; [assumption|].
  intros b tok Hcell Hsp.
  destruct (Hout _ _ _ Hcell) as [Hl Hi].
  destruct (Hcells _ _ _ Hcell) as [Hm Hr]. cbv zeta in Hm, Hr.
  apply selected_cell in Hm, Hr. rewrite Hsp in Hm, Hr.
  cbn [negb andb] in Hm, Hr.
  pose proof Hcell as Hcell'.
  apply cell_row in Hcell' as (row & Hrow & Htok).
  assert (Hn : (0 < shape1 inputs)%nat).
  { unfold rectangular in Hrect. rewrite Forall_lookup in Hrect.
    rewrite <- (Hrect _ _ Hrow). eapply lookup_lt_Some; eauto. }
  destruct (slot0_exists d inputs k b row Hk Hrow Hn) as (len & Hlen).
  destruct (column0_written d b _ k len Hlen) as [W0 W1].
  rewrite Hl, Hi.
  destruct (masked_span d b 0) eqn:Hp.
  - rewrite (W1 eq_refl) in Hr. rewrite Hr, orb_true_r. auto.
  - rewrite (W0 eq_refl) in Hm. rewrite Hm. simpl.
    destruct (selected random b 0); auto.
Qed.

Lemma span_mask_column0_supervised_witness :
  exists inputs' labels',
    span_mask ready_model sample_draws bare_inputs = Ok (inputs', labels') /\
    forall b tok,
      cell bare_inputs b 0 = Some tok -> special_token tok = false ->
      cell labels' b 0 = Some tok /\
      (cell inputs' b 0 = Some (mask_token ready_model) \/
       cell inputs' b 0 = Some (randint sample_draws b 0)).
Proof.
  apply (span_mask_column0_supervised ready_model sample_draws
           bare_inputs 1000).
  - reflexivity.
  - lia.
  - discriminate.
  - exact bare_inputs_rectangular.
  - exact sample_draws_in_unit.
Defined.

Lemma shape1_imap2 {A B} (f : nat -> nat -> A -> B) (g : list (list A)) :
  shape1 (imap2 f g) = shape1 g.
Proof. destruct g as [|row g]; simpl; [reflexivity | apply length_imap]. Qed.

(** A returned pair of [span_mask] is the elementwise rewrite of the
    input under the two index tensors. *)
Lemma span_mask_inv self d inputs inputs' labels' :
  span_mask self d inputs = Ok (inputs', labels') ->
  exists v masked random,
    vocab_size self = Some v /\ 0 < v /\
    span_indices d inputs = Ok (masked, random) /\
    labels' = imap2 (fun b j x =>
                       if selected masked b j || selected random b j
                       then x else IGNORE) inputs /\
    inputs' = imap2 (fun b j x =>
                       if selected random b j then randint d b j else x)
                (imap2 (fun b j x =>
                          if selected masked b j then mask_token self else x)
                       inputs).
Proof.
  unfold span_mask. intros H.
  destruct (vocab_size self) as [v|]; [|discriminate].
  apply bind_Ok in H as ([masked random] & Hidx & H).
  destruct (Z.leb_spec v 0); [discriminate|].
  injection H as <- <-.
  exists v, masked, random. repeat split; auto.
Qed.

(** X8.  [span_mask] keeps the shape of the tensor; every label is the
    original token or -100, and every returned token is the original
    token, the mask token or the random word drawn for the cell. *)
Theorem span_mask_shape_and_values self d inputs v :
  vocab_size self = Some v -> 0 < v ->
  inputs <> [] -> rectangular inputs -> rand_in_unit d ->
  exists inputs' labels',
    span_mask self d inputs = Ok (inputs', labels') /\
    forall b j,
      (cell inputs b j = None ->
       cell inputs' b j = None /\ cell labels' b j = None) /\
      (forall tok, cell inputs b j = Some tok ->
         (cell labels' b j = Some tok \/ cell labels' b j = Some IGNORE) /\
         (cell inputs' b j = Some tok \/
          cell inputs' b j = Some (mask_token self) \/
          cell inputs' b j = Some (randint d b j))).
Proof.
  intros Hv Hpos Hne Hrect Hu.
  destruct (span_indices_spec d inputs Hne Hrect Hu)
    as (k & masked & random & _ & Hidx & _).
  destruct (span_mask_rewrite self d inputs v _ _ Hv Hpos Hidx)
    as (inputs' & labels' & Hrun & Hout).
  exists inputs', labels'. split; [assumption|].
  intros b j. split.
  - intros Hnone.
    destruct (span_mask_inv _ _ _ _ _ Hrun)
      as (v' & masked' & random' & _ & _ & _ & -> & ->).
    rewrite !cell_imap2, Hnone. auto.
  - intros tok Hcell. destruct (Hout _ _ _ Hcell) as [-> ->].
    split.
    + destruct (selected masked b j || selected random b j); auto.
    + destruct (selected random b j), (selected masked b j); auto.
Qed.

Lemma span_mask_shape_and_values_witness :
  exists inputs' labels',
    span_mask ready_model sample_draws sample_inputs = Ok (inputs', labels') /\
    forall b j,
      (cell sample_inputs b j = None ->
       cell inputs' b j = None /\ cell labels' b j = None) /\
      (forall tok, cell sample_inputs b j = Some tok ->
         (cell labels' b j = Some tok \/ cell labels' b j = Some IGNORE) /\
         (cell inputs' b j = Some tok \/
          cell inputs' b j = Some (mask_token ready_model) \/
          cell inputs' b j = Some (randint sample_draws b j))).
Proof.
  apply (span_mask_shape_and_values ready_model sample_draws
           sample_inputs 1000).
  - reflexivity.
  - lia.
  - discriminate.
  - exact sample_inputs_rectangular.
  - exact sample_draws_in_unit.
Defined.

(** X9.  [set_mask_token] changes the value written at masked cells and
    nothing else of [span_mask]: for the same draws the labels are the
    same, every cell that is in [masked_indices] and not in
    [random_indices] held the old mask token and now holds the new one,
    and every other cell holds what it held. *)
Theorem set_mask_token_changes_masked_cells_only self d inputs t
  inputs' labels' :
  span_mask self d inputs = Ok (inputs', labels') ->
  exists masked random inputs'',
    span_indices d inputs = Ok (masked, random) /\
    span_mask (set_mask_token self t) d inputs = Ok (inputs'', labels') /\
    forall b j tok, cell inputs b j = Some tok ->
      if selected masked b j && negb (selected random b j)
      then cell inputs' b j = Some (mask_token self) /\
           cell inputs'' b j = Some t
      else cell inputs'' b j = cell inputs' b j.
Proof.
  intros Hrun.
  destruct (span_mask_inv _ _ _ _ _ Hrun)
    as (v & masked & random & Hv & Hpos & Hidx & -> & ->).
  destruct (span_mask_rewrite (set_mask_token self t) d inputs v _ _
              Hv Hpos Hidx) as (inputs'' & labels'' & Hrun' & Hout).
  destruct (span_mask_inv _ _ _ _ _ Hrun')
    as (v' & masked' & random' & _ & _ & Hidx' & -> & ->).
  rewrite Hidx in Hidx'. injection Hidx' as <- <-.
  exists masked, random. eexists. split; [exact Hidx|].
  split; [exact Hrun'|].
  intros b j tok Hcell.
  destruct (selected masked b j) eqn:Em, (selected random b j) eqn:Er;
    simpl; rewrite !cell_imap2, Hcell; simpl; rewrite ?Em, ?Er; auto.
Qed.

Lemma set_mask_token_changes_masked_cells_only_witness :
  exists masked random inputs'',
    span_indices sample_draws sample_inputs = Ok (masked, random) /\
    span_mask (set_mask_token ready_model 103) sample_draws sample_inputs
      = Ok (inputs'',
            [[-100; -100; 9; 10; -100; -100; -100; -100];
             [-100; -100; 9; 10; -100; -100; -100; -100]]) /\
    forall b j tok, cell sample_inputs b j = Some tok ->
      if selected masked b j && negb (selected random b j)
      then cell [[101; 8; -100; -100; 11; 12; 13; 102];
                 [101; 8; -100; -100; 11; 102; 0; 0]] b j
             = Some (mask_token ready_model) /\
           cell inputs'' b j = Some 103
      else cell inputs'' b j
           = cell [[101; 8; -100; -100; 11; 12; 13; 102];
                   [101; 8; -100; -100; 11; 102; 0; 0]] b j.
Proof.
  apply (set_mask_token_changes_masked_cells_only ready_model sample_draws
           sample_inputs 103).
  vm_compute. reflexivity.
Defined.

(** * Further properties of the gamma schedule (lines 57-62, 260-267) *)

(** X10.  The read of the schedule inside [forward] is clamped for every
    non-empty schedule: [k] advances after [set_gammas] it yields the
    coefficient at index min(k, len - 1), so the schedule holds at its
    last value. *)
Theorem gamma_current_clamps (self : model) (g : Q) (gs : list Q) (k : nat) :
  gamma_current (advances k (set_gammas self (g :: gs)))
  = Ok (default g ((g :: gs) !! (k `min` length gs)%nat)).
Proof.
  destruct (advances_state k (set_gammas self (g :: gs))) as [Hi Hg].
  unfold gamma_current. rewrite Hi, Hg.
  simpl gammas. simpl gamma_idx. rewrite Nat.add_0_r.
  destruct (Z.ltb_spec (Z.of_nat (length (g :: gs)) - 1) (Z.of_nat k))
    as [Hlt | Hge]; simpl length in *.
  - rewrite last_lookup. simpl length. simpl pred.
    replace (k `min` length gs)%nat with (length gs) by lia.
    destruct (lookup_lt_is_Some_2 (g :: gs) (length gs)) as [x ->];
      [simpl; lia | reflexivity].
  - replace (k `min` length gs)%nat with k by lia.
    unfold py_index.
    destruct (lookup_lt_is_Some_2 (g :: gs) k) as [x ->];
      [simpl; lia | reflexivity].
Qed.

(** X11.  Whenever [get_gamma] returns a coefficient, [forward] weights
    the MLM loss with the same coefficient. *)
Theorem get_gamma_agrees_with_forward (self : model) (g : Q) :
  get_gamma self = Ok g -> gamma_current self = Ok g.
Proof.
  unfold get_gamma, gamma_current, py_index. intros H.
  destruct (gammas self !! gamma_idx self) as [x|] eqn:E; [|discriminate].
  apply lookup_lt_Some in E.
  replace (Z.of_nat (length (gammas self)) - 1 <? Z.of_nat (gamma_idx self))
    with false by (symmetry; apply Z.ltb_ge; lia).
  exact H.
Qed.

Lemma get_gamma_agrees_with_forward_witness :
  gamma_current (advances 1 (set_gammas init sample_gammas)) = Ok (3 # 10)%Q.
Proof.
  apply (get_gamma_agrees_with_forward
           (advances 1 (set_gammas init sample_gammas)) (3 # 10)%Q).
  reflexivity.
Defined.

(** X12.  [k] advances after [set_gammas(gs)], [get_gamma] returns
    exactly the coefficient at index [k], and it raises [IndexError]
    exactly when [k] is at least the length of the schedule. *)
Theorem get_gamma_after_advances (self : model) (gs : list Q) (k : nat) :
  (forall g, get_gamma (advances k (set_gammas self gs)) = Ok g
             <-> gs !! k = Some g) /\
  (get_gamma (advances k (set_gammas self gs)) = Raise IndexError
   <-> (length gs <= k)%nat).
Proof.
  destruct (advances_state k (set_gammas self gs)) as [Hi Hg].
  unfold get_gamma, py_index. rewrite Hi, Hg.
  simpl gammas. simpl gamma_idx. rewrite Nat.add_0_r.
  split.
  - intros g. destruct (gs !! k) as [x|]; split; congruence.
  - rewrite <- lookup_ge_None.
    destruct (gs !! k) as [x|]; split; congruence.
Qed.

(** X13.  With an empty schedule every read raises [IndexError],
    wherever the cursor stands: [get_gamma] does, and so does a forward
    pass, even one without masking. *)
Theorem empty_schedule_raises {outputs : Type}
  (network : list (list Z) -> option outputs)
  (qa_loss_fct : outputs -> list Z -> list Z -> Q)
  (mlm_loss_fct : outputs -> list (list Z) -> Q)
  (self : model) (k : nat) (d : span_draws) (input_ids : list (list Z))
  (start_positions end_positions : option (list Z)) (decay_gamma : bool) :
  let m := advances k (set_gammas self []) in
  get_gamma m = Raise IndexError /\
  forward network qa_loss_fct mlm_loss_fct m d input_ids
          start_positions end_positions decay_gamma false
    = Raise IndexError.
Proof.
  intros m.
  destruct (advances_state k (set_gammas self [])) as [Hi Hg].
  fold m in Hi, Hg. simpl in Hi, Hg.
  assert (Hc : gamma_current m = Raise IndexError).
  { unfold gamma_current. rewrite Hi, Hg. simpl.
    destruct (_ <? _); reflexivity. }
  split.
  - unfold get_gamma, py_index. rewrite Hg. reflexivity.
  - unfold forward. simpl.
    destruct (network input_ids); simpl; [rewrite Hc|]; reflexivity.
Qed.

(** X14.  On a model whose schedule was never set, the weight that
    [forward] gives the MLM loss is 0 after any number of decay steps,
    while [get_gamma] raises [IndexError] from the first decay step on. *)
Theorem unscheduled_model_weight_zero (v : Z) (k : nat) :
  gamma_current (advances k (add_vocab_size init v)) = Ok 0%Q /\
  get_gamma (advances (S k) (add_vocab_size init v)) = Raise IndexError.
Proof.
  split.
  - destruct (advances_state k (add_vocab_size init v)) as [Hi Hg].
    unfold gamma_current. rewrite Hi, Hg. simpl gammas. simpl gamma_idx.
    destruct (Z.ltb_spec (Z.of_nat (length GAMMAS_INIT) - 1)
                (Z.of_nat (k + 0))) as [Hlt | Hge]; [reflexivity|].
    simpl in Hge. replace (k + 0)%nat with 0%nat by lia. reflexivity.
  - destruct (advances_state (S k) (add_vocab_size init v)) as [Hi Hg].
    unfold get_gamma, py_index. rewrite Hi, Hg. reflexivity.
Qed.

(** * Further properties of [forward] (lines 176-277) *)

Lemma advances_frame k :
  forall self,
    vocab_size (advances k self) = vocab_size self /\
    mask_token (advances k self) = mask_token self.
Proof.
  induction k as [|k IH]; intros self; simpl; [auto|].
  destruct (IH (advance self)) as [-> ->]. auto.
Qed.

Lemma advances_succ k :
  forall self, advance (advances k self) = advances (S k) self.
Proof.
  induction k as [|k IH]; intros self; [reflexivity|].
  simpl. rewrite IH. reflexivity.
Qed.

(** [span_mask] reads the vocabulary size and the mask token only. *)
Lemma span_mask_state m1 m2 d inputs :
  vocab_size m1 = vocab_size m2 -> mask_token m1 = mask_token m2 ->
  span_mask m1 d inputs = span_mask m2 d inputs.
Proof. intros Hv Ht. unfold span_mask. rewrite Hv, Ht. reflexivity. Qed.

(** The read of lines 261-264 on any state with a non-empty schedule. *)
Lemma gamma_current_in_range self g gs :
  gammas self = g :: gs ->
  gamma_current self
  = Ok (default g ((g :: gs) !! (gamma_idx self `min` length gs)%nat)).
Proof.
  intros Hg. unfold gamma_current. rewrite Hg.
  destruct (Z.ltb_spec (Z.of_nat (length (g :: gs)) - 1)
              (Z.of_nat (gamma_idx self))) as [Hlt | Hge];
    simpl length in *.
  - rewrite last_lookup. simpl length. simpl pred.
    replace (gamma_idx self `min` length gs)%nat with (length gs) by lia.
    destruct (lookup_lt_is_Some_2 (g :: gs) (length gs)) as [x ->];
      [simpl; lia | reflexivity].
  - replace (gamma_idx self `min` length gs)%nat with (gamma_idx self) by lia.
    unfold py_index.
    destruct (lookup_lt_is_Some_2 (g :: gs) (gamma_idx self)) as [x ->];
      [simpl; lia | reflexivity].
Qed.

(** X15.  Forward passes step through the schedule and touch nothing
    else: on ids the encoder accepts, the pass made [k] cursor steps
    after [set_gammas] weights the MLM loss with the coefficient at index
    min(k, len - 1) and returns the model in the state of [k + 1] cursor
    steps if [decay_gamma] is set and of [k] otherwise, with vocabulary
    size, mask token and schedule as they were. *)
Theorem forward_steps_through_schedule {outputs : Type}
  (network : list (list Z) -> option outputs)
  (qa_loss_fct : outputs -> list Z -> list Z -> Q)
  (mlm_loss_fct : outputs -> list (list Z) -> Q)
  (self : model) (g : Q) (gs : list Q) (k : nat)
  (d : span_draws) (input_ids : list (list Z))
  (start_positions end_positions : option (list Z))
  (decay_gamma mask_inputs : bool)
  (input_ids' mlm_labels : list (list Z)) (out : outputs) :
  (if mask_inputs then span_mask (set_gammas self (g :: gs)) d input_ids
   else Ok (input_ids, input_ids)) = Ok (input_ids', mlm_labels) ->
  network input_ids' = Some out ->
  exists self' loss,
    forward network qa_loss_fct mlm_loss_fct
            (advances k (set_gammas self (g :: gs))) d input_ids
            start_positions end_positions decay_gamma mask_inputs
      = Ok (self', (Some loss, out)) /\
    self' = advances (if decay_gamma then S k else k)
                     (set_gammas self (g :: gs)) /\
    vocab_size self' = vocab_size self /\
    mask_token self' = mask_token self /\
    gammas self' = g :: gs /\
    gamma_idx self' = (if decay_gamma then S k else k) /\
    loss =
      let weight := default g ((g :: gs) !! (k `min` length gs)%nat) in
      let mlm_loss :=
        if mask_inputs then mlm_loss_fct out mlm_labels else 0%Q in
      let bound := Z.of_nat (shape1 input_ids') in
      match start_positions, end_positions with
      | Some sp, Some ep =>
          (qa_loss_fct out (clamp 0 bound <$> sp) (clamp 0 bound <$> ep)
           + weight * mlm_loss)%Q
      | _, _ => (weight * mlm_loss)%Q
      end.
Proof.
  intros Hmask Hnet.
  set (m := set_gammas self (g :: gs)) in *.
  destruct (advances_state k m) as [Hi Hg].
  destruct (advances_frame k m) as [Hv Ht].
  assert (Hcur : gamma_current (advances k m)
                 = Ok (default g ((g :: gs) !! (k `min` length gs)%nat))).
  { rewrite (gamma_current_in_range _ g gs) by (rewrite Hg; reflexivity).
    rewrite Hi. simpl. rewrite Nat.add_0_r. reflexivity. }
  assert (Hmask' : (if mask_inputs then span_mask (advances k m) d input_ids
                    else Ok (input_ids, input_ids))
                   = Ok (input_ids', mlm_labels)).
  { destruct mask_inputs; [|exact Hmask].
    rewrite (span_mask_state _ m) by assumption. exact Hmask. }
  eexists _, _. split.
  - unfold forward. rewrite Hmask'. simpl. rewrite Hnet. simpl.
    rewrite Hcur. simpl. reflexivity.
  - assert (Hstate : (if decay_gamma then advance (advances k m)
                      else advances k m)
                     = advances (if decay_gamma then S k else k) m).
    { destruct decay_gamma; [apply advances_succ | reflexivity]. }
    rewrite Hstate.
    destruct (advances_state (if decay_gamma then S k else k) m) as [Hi' Hg'].
    destruct (advances_frame (if decay_gamma then S k else k) m)
      as [Hv' Ht'].
    rewrite Hv', Ht', Hg', Hi'. simpl.
    repeat split; try lia.
    destruct start_positions, end_positions; reflexivity.
Qed.

Lemma forward_steps_through_schedule_witness :
  exists self' loss,
    forward sample_network (fun _ _ _ => 3 # 1)%Q (fun _ _ => 2 # 1)%Q
            (advances 1 (set_gammas masking_model sample_gammas))
            sample_draws sample_inputs (Some [1; 20]) (Some [3; 4])
            true true
      = Ok (self', (Some loss,
                    [[101; 8; 103; 103; 11; 12; 13; 102];
                     [101; 8; 103; 103; 11; 102; 0; 0]])) /\
    self' = advances 2 (set_gammas masking_model sample_gammas) /\
    vocab_size self' = vocab_size masking_model /\
    mask_token self' = mask_token masking_model /\
    gammas self' = sample_gammas /\
    gamma_idx self' = 2%nat /\
    loss = ((3 # 1) + (3 # 10) * (2 # 1))%Q.
Proof.
  exact (forward_steps_through_schedule sample_network
           (fun _ _ _ => 3 # 1)%Q (fun _ _ => 2 # 1)%Q
           masking_model (1 # 10)%Q [3 # 10; 1 # 2]%Q 1%nat
           sample_draws sample_inputs (Some [1; 20]) (Some [3; 4])
           true true
           [[101; 8; 103; 103; 11; 12; 13; 102];
            [101; 8; 103; 103; 11; 102; 0; 0]]
           [[-100; -100; 9; 10; -100; -100; -100; -100];
            [-100; -100; 9; 10; -100; -100; -100; -100]]
           [[101; 8; 103; 103; 11; 12; 13; 102];
            [101; 8; 103; 103; 11; 102; 0; 0]]
           eq_refl eq_refl).
Defined.

Lemma clamp_into_range n p : clamp 0 (Z.of_nat n) p = into_range (Z.of_nat n) p.
Proof.
  unfold clamp, into_range.
  destruct (Z.ltb_spec p 0); [lia|].
  destruct (Z.ltb_spec (Z.of_nat n) p); lia.
Qed.

Lemma into_range_bounds n p : 0 <= into_range (Z.of_nat n) p <= Z.of_nat n.
Proof.
  unfold into_range.
  destruct (Z.ltb_spec p 0); [lia|].
  destruct (Z.ltb_spec (Z.of_nat n) p); lia.
Qed.

(** X16.  The QA loss is computed on the gold positions brought into
    [0, sent_len], where sent_len is the sequence length of the batch
    given to [forward], also when the batch is masked first: a negative
    position becomes 0, a position beyond sent_len becomes sent_len, and
    every other position is passed as it is. *)
Theorem forward_clamps_positions {outputs : Type}
  (network : list (list Z) -> option outputs)
  (qa_loss_fct : outputs -> list Z -> list Z -> Q)
  (mlm_loss_fct : outputs -> list (list Z) -> Q)
  (self : model) (d : span_draws) (input_ids : list (list Z))
  (sp ep : list Z) (decay_gamma mask_inputs : bool)
  (g : Q) (input_ids' mlm_labels : list (list Z)) (out : outputs) :
  gamma_current self = Ok g ->
  (if mask_inputs then span_mask self d input_ids
   else Ok (input_ids, input_ids)) = Ok (input_ids', mlm_labels) ->
  network input_ids' = Some out ->
  let sent_len := Z.of_nat (shape1 input_ids) in
  let mlm_loss := if mask_inputs then mlm_loss_fct out mlm_labels else 0%Q in
  forward network qa_loss_fct mlm_loss_fct self d input_ids
          (Some sp) (Some ep) decay_gamma mask_inputs
  = Ok (if decay_gamma then advance self else self,
        (Some (qa_loss_fct out (into_range sent_len <$> sp)
                               (into_range sent_len <$> ep)
               + g * mlm_loss)%Q, out)) /\
  Forall (fun p => 0 <= p <= sent_len) (into_range sent_len <$> sp) /\
  Forall (fun p => 0 <= p <= sent_len) (into_range sent_len <$> ep).
Proof.
  intros Hg Hmask Hnet sent_len mlm_loss.
  assert (Hshape : shape1 input_ids' = shape1 input_ids).
  { destruct mask_inputs.
    - destruct (span_mask_inv _ _ _ _ _ Hmask)
        as (v & masked & random & _ & _ & _ & _ & ->).
      rewrite !shape1_imap2. reflexivity.
    - injection Hmask as <- _. reflexivity. }
  assert (Hfmap : forall l : list Z,
            clamp 0 (Z.of_nat (shape1 input_ids')) <$> l
            = into_range sent_len <$> l).
  { intros l. apply list_fmap_ext. intros i x _.
    rewrite Hshape. apply clamp_into_range. }
  split; [|split].
  - unfold forward. rewrite Hmask. simpl. rewrite Hnet. simpl.
    rewrite Hg. simpl. rewrite !Hfmap. reflexivity.
  - apply Forall_fmap, Forall_forall. intros p _. apply into_range_bounds.
  - apply Forall_fmap, Forall_forall. intros p _. apply into_range_bounds.
Qed.

Lemma forward_clamps_positions_witness :
  forward sample_network sample_qa_loss (fun _ _ => 2 # 1)%Q
          (set_gammas masking_model sample_gammas)
          sample_draws sample_inputs (Some [1; 20]) (Some [3; -4])
          false true
  = Ok (set_gammas masking_model sample_gammas,
        (Some (sample_qa_loss sample_rewritten [1; 8]%Z [3; 0]%Z
               + (1 # 10) * (2 # 1))%Q,
         sample_rewritten)) /\
  Forall (fun p => 0 <= p <= 8) [1; 8] /\
  Forall (fun p => 0 <= p <= 8) [3; 0].
Proof.
  exact (forward_clamps_positions sample_network sample_qa_loss
           (fun _ _ => 2 # 1)%Q
           (set_gammas masking_model sample_gammas)
           sample_draws sample_inputs [1; 20] [3; -4] false true
           (1 # 10)%Q
           [[101; 8; 103; 103; 11; 12; 13; 102];
            [101; 8; 103; 103; 11; 102; 0; 0]]
           [[-100; -100; 9; 10; -100; -100; -100; -100];
            [-100; -100; 9; 10; -100; -100; -100; -100]]
           [[101; 8; 103; 103; 11; 12; 13; 102];
            [101; 8; 103; 103; 11; 102; 0; 0]]
           eq_refl eq_refl eq_refl).
Defined.

(** * Further properties of [mlm_mask] (lines 142-174) *)

(** [mlm_mask] cell by cell. *)
Lemma mlm_mask_cells self d inputs v :
  vocab_size self = Some v -> 0 < v ->
  exists inputs' labels',
    mlm_mask self d inputs = Ok (inputs', labels') /\
    forall b j tok, cell inputs b j = Some tok ->
      let sel := bernoulli (if special_token tok then 0%Q else mlm_probability)
                           (bern_select d b j) in
      let rep := bernoulli (8 # 10) (bern_replace d b j) && sel in
      let rnd := bernoulli (5 # 10) (bern_randomize d b j) && sel
                 && negb rep in
      cell labels' b j = Some (if sel then tok else IGNORE) /\
      cell inputs' b j =
        Some (if rnd then mlm_randint d b j
              else if rep then mask_token self else tok).
Proof.
  intros Hv Hpos. unfold mlm_mask. rewrite Hv.
  replace (v <=? 0) with false by (symmetry; apply Z.leb_gt; lia).
  eexists _, _. split; [reflexivity|].
  intros b j tok Hcell. cbv zeta.
  set (sel := bernoulli (if special_token tok then 0%Q else mlm_probability)
                        (bern_select d b j)).
  set (rep := bernoulli (8 # 10) (bern_replace d b j) && sel).
  set (rnd := bernoulli (5 # 10) (bern_randomize d b j) && sel && negb rep).
  assert (Hsel : selected (mlm_masked_indices d inputs) b j = sel).
  { apply selected_cell. unfold mlm_masked_indices, probability_matrix.
    rewrite !cell_imap2, Hcell. reflexivity. }
  assert (Hrep : selected (indices_replaced d inputs) b j = rep).
  { apply selected_cell. unfold indices_replaced, mlm_masked_indices,
      probability_matrix.
    rewrite !cell_imap2, Hcell. reflexivity. }
  assert (Hrnd : selected (indices_random d inputs) b j = rnd).
  { apply selected_cell. unfold indices_random.
    rewrite cell_imap2, Hrep.
    unfold mlm_masked_indices, probability_matrix.
    rewrite !cell_imap2, Hcell. reflexivity. }
  rewrite !cell_imap2, Hcell. simpl. rewrite Hsel, Hrep, Hrnd. auto.
Qed.

(** X17.  [mlm_mask] returns whenever the vocabulary size is configured,
    and wherever its returned token differs from the original one the
    label is the original token; every label is the original token
    or -100. *)
Theorem mlm_mask_changed_token_labelled self d inputs v :
  vocab_size self = Some v -> 0 < v ->
  exists inputs' labels',
    mlm_mask self d inputs = Ok (inputs', labels') /\
    forall b j tok, cell inputs b j = Some tok ->
      (cell labels' b j = Some tok \/ cell labels' b j = Some IGNORE) /\
      (forall tok', cell inputs' b j = Some tok' -> tok' <> tok ->
                    cell labels' b j = Some tok).
Proof.
  intros Hv Hpos.
  destruct (mlm_mask_cells self d inputs v Hv Hpos)
    as (inputs' & labels' & Hrun & Hcells).
  exists inputs', labels'. split; [assumption|].
  intros b j tok Hcell.
  destruct (Hcells _ _ _ Hcell) as [Hl Hi]. cbv zeta in Hl, Hi.
  rewrite Hl, Hi. split.
  - destruct (bernoulli _ (bern_select d b j)); auto.
  - intros tok' [= <-] Hdiff.
    destruct (bernoulli _ (bern_select d b j)); [reflexivity|].
    rewrite !andb_false_r in Hdiff. simpl in Hdiff. congruence.
Qed.

Lemma mlm_mask_changed_token_labelled_witness :
  exists inputs' labels',
    mlm_mask ready_model sample_mlm_draws sample_inputs
      = Ok (inputs', labels') /\
    forall b j tok, cell sample_inputs b j = Some tok ->
      (cell labels' b j = Some tok \/ cell labels' b j = Some IGNORE) /\
      (forall tok', cell inputs' b j = Some tok' -> tok' <> tok ->
                    cell labels' b j = Some tok).
Proof.
  apply (mlm_mask_changed_token_labelled ready_model sample_mlm_draws
           sample_inputs 1000).
  - reflexivity.
  - lia.
Defined.

(** X18.  In [mlm_mask] a non-protected cell is selected exactly when
    its first Bernoulli draw, of probability mlm_probability, is 1.  An
    unselected cell keeps its token and gets label -100.  A selected
    cell is labelled with its token and receives the mask token if its
    0.8 draw is 1, else the random word if its 0.5 draw is 1, else it
    keeps its token while staying labelled. *)
Theorem mlm_mask_selected_cells self d inputs v :
  vocab_size self = Some v -> 0 < v ->
  exists inputs' labels',
    mlm_mask self d inputs = Ok (inputs', labels') /\
    forall b j tok,
      cell inputs b j = Some tok -> special_token tok = false ->
      (bernoulli mlm_probability (bern_select d b j) = false ->
       cell inputs' b j = Some tok /\ cell labels' b j = Some IGNORE) /\
      (bernoulli mlm_probability (bern_select d b j) = true ->
       cell labels' b j = Some tok /\
       (bernoulli (8 # 10) (bern_replace d b j) = true ->
        cell inputs' b j = Some (mask_token self)) /\
       (bernoulli (8 # 10) (bern_replace d b j) = false ->
        bernoulli (5 # 10) (bern_randomize d b j) = true ->
        cell inputs' b j = Some (mlm_randint d b j)) /\
       (bernoulli (8 # 10) (bern_replace d b j) = false ->
        bernoulli (5 # 10) (bern_randomize d b j) = false ->
        cell inputs' b j = Some tok)).
Proof.
  intros Hv Hpos.
  destruct (mlm_mask_cells self d inputs v Hv Hpos)
    as (inputs' & labels' & Hrun & Hcells).
  exists inputs', labels'. split; [assumption|].
  intros b j tok Hcell Hsp.
  destruct (Hcells _ _ _ Hcell) as [Hl Hi]. cbv zeta in Hl, Hi.
  rewrite Hsp in Hl, Hi. rewrite Hl, Hi.
  split.
  - intros E. rewrite E, !andb_false_r. auto.
  - intros E. rewrite E, !andb_true_r.
    split; [reflexivity|].
    repeat split.
    + intros E1. rewrite E1. simpl. rewrite andb_false_r. reflexivity.
    + intros E1 E2. rewrite E1, E2. reflexivity.
    + intros E1 E2. rewrite E1, E2. reflexivity.
Qed.

Lemma mlm_mask_selected_cells_witness :
  exists inputs' labels',
    mlm_mask ready_model sample_mlm_draws sample_inputs
      = Ok (inputs', labels') /\
    forall b j tok,
      cell sample_inputs b j = Some tok -> special_token tok = false ->
      (bernoulli mlm_probability (bern_select sample_mlm_draws b j) = false ->
       cell inputs' b j = Some tok /\ cell labels' b j = Some IGNORE) /\
      (bernoulli mlm_probability (bern_select sample_mlm_draws b j) = true ->
       cell labels' b j = Some tok /\
       (bernoulli (8 # 10) (bern_replace sample_mlm_draws b j) = true ->
        cell inputs' b j = Some (mask_token ready_model)) /\
       (bernoulli (8 # 10) (bern_replace sample_mlm_draws b j) = false ->
        bernoulli (5 # 10) (bern_randomize sample_mlm_draws b j) = true ->
        cell inputs' b j = Some (mlm_randint sample_mlm_draws b j)) /\
       (bernoulli (8 # 10) (bern_replace sample_mlm_draws b j) = false ->
        bernoulli (5 # 10) (bern_randomize sample_mlm_draws b j) = false ->
        cell inputs' b j = Some tok)).
Proof.
  apply (mlm_mask_selected_cells ready_model sample_mlm_draws
           sample_inputs 1000).
  - reflexivity.
  - lia.
Defined.

(** * How many cells [span_mask] supervises *)

Lemma max_list_below (P : nat -> Prop) l :
  P 0%nat -> Forall P l -> P (max_list l).
Proof.
  intros H0. induction 1 as [|x l Hx _ IH]; simpl; [assumption|].
  destruct (Nat.max_spec x (max_list l)) as [[_ ->] | [_ ->]]; assumption.
Qed.

Lemma max_nspans_below_budget d inputs k :
  max_nspans d inputs = Ok k ->
  (inject_Z (Z.of_nat k) < budget (shape1 inputs))%Q.
Proof.
  intros Hk. unfold max_nspans in Hk.
  destruct inputs as [|row rest] eqn:E; [discriminate|].
  rewrite <- E in *. injection Hk as <-.
  apply (max_list_below
           (fun x => (inject_Z (Z.of_nat x) < budget (shape1 inputs))%Q)).
  - eapply Qle_lt_trans; [|apply budget_above_candidates].
    rewrite <- Zle_Qle. unfold max_spanlen. simpl. lia.
  - apply Forall_lookup. intros b x Hx.
    rewrite list_lookup_imap in Hx.
    destruct (inputs !! b); simpl in Hx; [|discriminate].
    injection Hx as <-. apply nspans_below_budget.
Qed.

(** A marked cell is the start of a span slot or the cell after it. *)
Lemma marked_near_start policy d b n k j :
  marked policy d b n k j ->
  j ∈ (Z.to_nat <$> start_idxs d b n k)
      ++ ((fun s => Z.to_nat (s + 1)) <$> start_idxs d b n k).
Proof.
  intros (c & len & s & e & _ & _ & Hs & _ & _ & Hin & Hlt).
  unfold max_spanlen in Hlt.
  apply list_elem_of_lookup_2 in Hs.
  apply elem_of_app.
  destruct (decide (Z.of_nat j = s)) as [<- | Hne].
  - left. apply list_elem_of_fmap. exists (Z.of_nat j).
    split; [lia | assumption].
  - right. apply list_elem_of_fmap. exists s.
    split; [lia | assumption].
Qed.

(** X19.  Per sequence, [span_mask] supervises at most
    1 + max_spanlen * k cells, where k, the number of span slots of the
    batch, is below the threshold of line 100. *)
Theorem span_mask_supervised_count d inputs :
  inputs <> [] -> rectangular inputs -> rand_in_unit d ->
  exists k masked random,
    max_nspans d inputs = Ok k /\
    span_indices d inputs = Ok (masked, random) /\
    (inject_Z (Z.of_nat k) < budget (shape1 inputs))%Q /\
    forall b, (b < length inputs)%nat ->
      (length (supervised masked random b (shape1 inputs))
       <= 1 + Z.to_nat max_spanlen * k)%nat.
Proof.
  intros Hne Hrect Hu.
  destruct (span_indices_cells d inputs Hne Hrect Hu)
    as (k & masked & random & Hk & Hidx & Hcells).
  exists k, masked, random.
  split; [assumption|]. split; [assumption|].
  split; [exact (max_nspans_below_budget d inputs k Hk)|].
  intros b Hb.
  set (n := shape1 inputs) in *.
  set (near := (Z.to_nat <$> start_idxs d b n k)
               ++ ((fun s => Z.to_nat (s + 1)) <$> start_idxs d b n k)).
  assert (Hnear : (length near <= Z.to_nat max_spanlen * k)%nat).
  { unfold near. rewrite length_app, !length_fmap, length_start_idxs.
    unfold lengths. rewrite length_take.
    change (Z.to_nat max_spanlen) with 2%nat. lia. }
  assert (Hsub : supervised masked random b n ⊆+ 0%nat :: near).
  { apply NoDup_submseteq.
    - unfold supervised. apply NoDup_filter, NoDup_seq.
    - intros j Hj. unfold supervised in Hj.
      apply list_elem_of_filter in Hj as [Hsel Hjn].
      apply elem_of_seq in Hjn.
      destruct j as [|j]; [left|right].
      destruct (lookup_lt_is_Some_2 inputs b Hb) as [row Hrow].
      assert (Hlen : length row = n).
      { unfold rectangular in Hrect. rewrite Forall_lookup in Hrect. eauto. }
      destruct (lookup_lt_is_Some_2 row (S j)) as [tok Htok]; [lia|].
      assert (Hcell : cell inputs b (S j) = Some tok)
        by (unfold cell; rewrite Hrow; exact Htok).
      destruct (Hcells _ _ _ Hcell) as [Hm Hr]. cbv zeta in Hm, Hr.
      apply selected_cell in Hm, Hr. fold n in Hm, Hr.
      rewrite Hm, Hr in Hsel. apply orb_true_iff in Hsel.
      destruct Hsel as [H | H]; apply andb_true_iff in H as [_ H].
      + apply (marked_near_start (masked_span d b)).
        apply written_marked; [lia | exact H].
      + apply (marked_near_start (random_span d b)).
        apply written_marked; [lia | exact H]. }
  apply submseteq_length in Hsub. simpl in Hsub. lia.
Qed.

Lemma span_mask_supervised_count_witness :
  exists k masked random,
    max_nspans sample_draws sample_inputs = Ok k /\
    span_indices sample_draws sample_inputs = Ok (masked, random) /\
    (inject_Z (Z.of_nat k) < budget (shape1 sample_inputs))%Q /\
    forall b, (b < length sample_inputs)%nat ->
      (length (supervised masked random b (shape1 sample_inputs))
       <= 1 + Z.to_nat max_spanlen * k)%nat.
Proof.
  apply (span_mask_supervised_count sample_draws sample_inputs).
  - discriminate.
  - exact sample_inputs_rectangular.
  - exact sample_draws_in_unit.
Defined.
